(** * linestyle: hand-drawn stroke synthesis, verified against its specification

    A shallow embedding of [src/linestyle/strokes.py] and
    [src/linestyle/plot.py], and of the [parabola] figure of
    [examples/make_gallery.py].

    Modelling conventions.
    - A Python [float] is an exact rational ([Q]): every finite double is a
      rational, and the arithmetic is taken without rounding.  Numerical
      equality (Python's [==]) is [Qeq].  A decimal literal denotes the
      decimal it spells.
    - A Python [int] is a [Z].
    - Python exceptions are values of [exn]; a computation that may raise
      has type [result A].  Both integer and float division raise
      [ZeroDivisionError] on a zero divisor, as in Python.
    - [math.sin], [math.cos], [math.hypot], the numpy generator behind
      [np.random.default_rng(seed)] and the [format(x, ".kf")] rendering of a
      float are the program's platform; they are the fields of [Platform].
      A seed is an integer that [default_rng] accepts.
    - [svgwrite.Drawing] is the ordered list of the paths added to it. *)

From Stdlib Require Import String Bool ZArith QArith Qabs Lqa Lia List.
Import ListNotations.

Local Open Scope Q_scope.

(** ** Exceptions and the error monad *)

Inductive exn : Type :=
| ZeroDivisionError
| IndexError.

Definition result (A : Type) : Type := (exn + A)%type.

Definition ret {A : Type} (a : A) : result A := inr a.
Definition raise {A : Type} (e : exn) : result A := inl e.

Definition bind {A B : Type} (c : result A) (k : A -> result B) : result B :=
  match c with
  | inl e => inl e
  | inr a => k a
  end.

Declare Scope result_scope.
Delimit Scope result_scope with result.
Notation "x <- c ;; k" := (bind c (fun x => k))
  (at level 61, c at next level, right associativity) : result_scope.
Notation "' pat <- c ;; k" := (bind c (fun x => match x with pat => k end))
  (at level 61, pat pattern, c at next level, right associativity) : result_scope.
Local Open Scope result_scope.

(** ** Python arithmetic *)

(** [a < b] on floats. *)
Definition Qltb (a b : Q) : bool := negb (Qle_bool b a).

(** [a / b] on floats. *)
Definition fdiv (a b : Q) : result Q :=
  if Qeq_bool b 0 then raise ZeroDivisionError else ret (a / b).

(** [a / b] on ints (true division). *)
Definition truediv (a b : Z) : result Q :=
  if (b =? 0)%Z then raise ZeroDivisionError else ret (inject_Z a / inject_Z b).

(** The builtin [min(a, b)]: the first of the smallest arguments. *)
Definition py_min (a b : Q) : Q := if Qltb b a then b else a.

(** [range(lo, hi)] and [range(n)]. *)
Definition range2 (lo hi : Z) : list Z :=
  map (fun k => (lo + Z.of_nat k)%Z) (seq 0 (Z.to_nat (hi - lo))).

Definition range (n : Z) : list Z := range2 0 n.

(** [len(xs)]. *)
Definition len {A : Type} (xs : list A) : Z := Z.of_nat (length xs).

(** [xs[i]] for a non-negative index. *)
Definition getitem {A : Type} (xs : list A) (i : Z) : result A :=
  if (i <? 0)%Z then raise IndexError
  else match nth_error xs (Z.to_nat i) with
       | Some a => ret a
       | None => raise IndexError
       end.

(** [math.pi], the double nearest to the circle constant. *)
Definition math_pi : Q := 884279719003555 # 281474976710656.

(** [math.radians(x)]. *)
Definition math_radians (x : Q) : Q := x * (math_pi / 180).

(** ** The platform: libm, numpy's generator, float formatting *)

Class Platform : Type := {
  math_sin : Q -> Q;
  math_cos : Q -> Q;
  math_hypot : Q -> Q -> Q;
  (** [next_double seed k]: the [k]-th double in [0, 1) produced by the bit
      generator that [np.random.default_rng(seed)] creates. *)
  next_double : Z -> nat -> Q;
  next_double_range : forall seed k, 0 <= next_double seed k < 1;
  (** [format_f k x] is [format(x, ".kf")]. *)
  format_f : nat -> Q -> string
}.

(** A [np.random.Generator]: the seed of its stream and how many doubles have
    been drawn from it.  The object is mutable; the code that uses it threads
    the state. *)
Record Generator : Type := mkGenerator {
  gen_seed : Z;
  gen_pos : nat
}.

(** [np.random.default_rng(seed)]. *)
Definition default_rng (seed : Z) : Generator := mkGenerator seed 0.

Section Strokes.

Context {P : Platform}.

(** [rng.uniform(low, high)]: [low + (high - low) * next_double()]. *)
Definition uniform (rng : Generator) (low high : Q) : Q * Generator :=
  (low + (high - low) * next_double (gen_seed rng) (gen_pos rng),
   mkGenerator (gen_seed rng) (S (gen_pos rng))).

(** ** strokes.py *)

Definition Point : Type := (Q * Q)%type.

Record StrokeStyle : Type := mkStrokeStyle {
  width : Q;
  amp : Q;
  waves : Q;
  taper : Q;
  color : string;
  linecap : string;
  linejoin : string
}.

(** [StrokeStyle()], the dataclass defaults. *)
Definition default_style : StrokeStyle :=
  mkStrokeStyle 2.2 0.8 1.2 0.08 "#111" "round" "round".

Definition _unit (vx vy : Q) : result (Q * Q) :=
  let n := math_hypot vx vy in
  if Qeq_bool n 0 then ret (0, 0)
  else ux <- fdiv vx n;; uy <- fdiv vy n;; ret (ux, uy).

Definition _normal (p0 p1 : Point) : result (Q * Q) :=
  let dx := fst p1 - fst p0 in
  let dy := snd p1 - snd p0 in
  '(ux, uy) <- _unit dx dy;;
  ret (- uy, ux).

Definition _taper_k (t taper : Q) : result Q :=
  if Qle_bool taper 0 then ret 1
  else
    let edge := py_min t (1 - t) in
    r <- fdiv edge taper;;
    ret (py_min 1 r).

(** The drift formula of [_smooth_offset] for a given phase and second
    harmonic weight. *)
Definition drift (waves t phase a2 : Q) : Q :=
  math_sin (2 * math_pi * waves * t + phase)
  + a2 * math_sin (2 * math_pi * (2 * waves) * t + 0.7 * phase).

Definition _smooth_offset (t : Q) (rng : Generator) (waves : Q) : Q * Generator :=
  let '(phase, rng1) := uniform rng 0 (2 * math_pi) in
  let '(a2, rng2) := uniform rng1 (-0.10) 0.10 in
  (drift waves t phase a2, rng2).

(** [for x in xs: body], threading the state the body updates and stopping at
    the first exception. *)
Fixpoint for_each {A S : Type} (xs : list A) (body : A -> S -> result S) (s : S)
  : result S :=
  match xs with
  | [] => ret s
  | x :: xs' => s' <- body x s;; for_each xs' body s'
  end.

(** [enumerate(xs)]. *)
Definition enumerate {A : Type} (xs : list A) : list (Z * A) :=
  combine (map Z.of_nat (seq 0 (length xs))) xs.

(** The body of the sampling loop of [stroke_line] (lines 81-90), which
    [stroke_line_dashed] repeats (lines 131-138); the loop state is the list
    [pts] and the generator. *)
Definition sample_step (p0 p1 : Point) (style : StrokeStyle) (nx ny : Q) (n : Z)
    (i : Z) (st : list Point * Generator) : result (list Point * Generator) :=
  let '(pts, rng) := st in
  t <- truediv i (n - 1);;
  let bx := fst p0 + (fst p1 - fst p0) * t in
  let by_ := snd p0 + (snd p1 - snd p0) * t in
  k <- _taper_k t (taper style);;
  let '(s, rng') := _smooth_offset t rng (waves style) in
  let off := amp style * k * s in
  let x := bx + nx * off in
  let y := by_ + ny * off in
  ret (pts ++ [(x, y)], rng').

(** The segment perturbation kernel: the normal and the sampling loop, run on
    a generator in a given state.  Returns [pts] and the generator after the
    loop. *)
Definition perturb_segment (p0 p1 : Point) (style : StrokeStyle) (rng : Generator)
    (n : Z) : result (list Point * Generator) :=
  '(nx, ny) <- _normal p0 p1;;
  for_each (range n) (sample_step p0 p1 style nx ny n) ([], rng).

(** An [svgwrite.path.Path]: its presentation attributes and the path
    commands pushed so far. *)
Record Path : Type := mkPath {
  fill : string;
  stroke : string;
  stroke_width : Q;
  stroke_linecap : string;
  stroke_linejoin : string;
  stroke_dasharray : option string;
  stroke_dashoffset : option string;
  commands : list string
}.

(** An [svgwrite.Drawing]: the elements added, in order. *)
Definition Drawing : Type := list Path.

(** [dwg.path(fill=, stroke=, ...)]. *)
Definition dwg_path (style : StrokeStyle) (dasharray : option string) : Path :=
  mkPath "none"%string (color style) (width style) (linecap style) (linejoin style)
         dasharray None [].

(** [path.push(cmd)]. *)
Definition push (path : Path) (cmd : string) : Path :=
  mkPath (fill path) (stroke path) (stroke_width path) (stroke_linecap path)
         (stroke_linejoin path) (stroke_dasharray path) (stroke_dashoffset path)
         (commands path ++ [cmd]).

(** [path.update({"stroke-dashoffset": v})]. *)
Definition update_dashoffset (path : Path) (v : string) : Path :=
  mkPath (fill path) (stroke path) (stroke_width path) (stroke_linecap path)
         (stroke_linejoin path) (stroke_dasharray path) (Some v)
         (commands path).

(** [dwg.add(path)]. *)
Definition dwg_add (dwg : Drawing) (path : Path) : Drawing := dwg ++ [path].

Definition move_to (p : Point) : string :=
  ("M " ++ format_f 2 (fst p) ++ "," ++ format_f 2 (snd p))%string.

Definition line_to (p : Point) : string :=
  ("L " ++ format_f 2 (fst p) ++ "," ++ format_f 2 (snd p))%string.

(** Lines 100-102 (and 149-151): move to [pts[0]], line to each of
    [pts[1:]]. *)
Definition push_points (path : Path) (pts : list Point) : result Path :=
  first <- getitem pts 0;;
  let path := push path (move_to first) in
  ret (fold_left (fun pa q => push pa (line_to q)) (skipn 1 pts) path).

Definition stroke_line (dwg : Drawing) (p0 p1 : Point) (style : StrokeStyle)
    (seed : Z) (n : Z) : result (Path * Drawing) :=
  let rng := default_rng seed in
  '(pts, _) <- perturb_segment p0 p1 style rng n;;
  let path := dwg_path style None in
  path <- push_points path pts;;
  ret (path, dwg_add dwg path).

Definition stroke_line_dashed (dwg : Drawing) (p0 p1 : Point) (style : StrokeStyle)
    (seed : Z) (n : Z) (dash_base gap_base : Q) : result (Path * Drawing) :=
  let rng := default_rng seed in
  let '(u1, rng) := uniform rng 0.85 1.15 in
  let dash := dash_base * u1 in
  let '(u2, rng) := uniform rng 0.85 1.20 in
  let gap := gap_base * u2 in
  let dasharray := (format_f 1 dash ++ " " ++ format_f 1 gap)%string in
  '(pts, rng) <- perturb_segment p0 p1 style rng n;;
  let path := dwg_path style (Some dasharray) in
  path <- push_points path pts;;
  let '(u3, rng) := uniform rng 0 (dash + gap) in
  let path := update_dashoffset path (format_f 1 u3) in
  ret (path, dwg_add dwg path).

Definition stroke_polyline (dwg : Drawing) (points : list Point)
    (style : StrokeStyle) (seed : Z) (n_per_seg : Z) : result Drawing :=
  if (len points <? 2)%Z then ret dwg
  else
    for_each (range (len points - 1))
      (fun i dwg =>
         a <- getitem points i;;
         b <- getitem points (i + 1);;
         '(_, dwg) <- stroke_line dwg a b style (seed + i * 97) n_per_seg;;
         ret dwg)
      dwg.

Definition arrow_head_open (dwg : Drawing) (tip direction : Point)
    (style : StrokeStyle) (seed : Z) (size open_angle_deg : Q) : result Drawing :=
  let rng := default_rng seed in
  '(dx, dy) <- _unit (fst direction) (snd direction);;
  let '(u, rng) := uniform rng (-4.0) 4.0 in
  let a1 := math_radians (open_angle_deg + u) in
  let ca1 := math_cos a1 in
  let sa1 := math_sin a1 in
  let lx := dx * ca1 - dy * sa1 in
  let ly := dx * sa1 + dy * ca1 in
  let '(u, rng) := uniform rng (-6.0) 6.0 in
  let a2 := math_radians (open_angle_deg + u) in
  let ca2 := math_cos a2 in
  let sa2 := math_sin a2 in
  let rx := dx * ca2 + dy * sa2 in
  let ry := - dx * sa2 + dy * ca2 in
  let pL := (fst tip - lx * size, snd tip - ly * size) in
  let pR := (fst tip - rx * size, snd tip - ry * size) in
  '(_, dwg) <- stroke_line dwg pL tip style (seed + 101) 18;;
  '(_, dwg) <- stroke_line dwg pR tip style (seed + 202) 18;;
  ret dwg.

Definition rot (vx vy ang : Q) : Q * Q :=
  let ca := math_cos ang in
  let sa := math_sin ang in
  (vx * ca - vy * sa, vx * sa + vy * ca).

(** The nested [kink_point] of [arrow_head_gesture]; it draws from the
    enclosing generator. *)
Definition kink_point (p0 tip : Point) (k : Q) (rng : Generator)
  : result (Point * Generator) :=
  let vx := fst tip - fst p0 in
  let vy := snd tip - snd p0 in
  '(ux, uy) <- _unit vx vy;;
  let nx := - uy in
  let ny := ux in
  let '(kk, rng) := uniform rng (- k) k in
  let '(t, rng) := uniform rng 0.70 0.85 in
  let bx := fst p0 + (fst tip - fst p0) * t in
  let by_ := snd p0 + (snd tip - snd p0) * t in
  ret ((bx + nx * kk, by_ + ny * kk), rng).

Definition arrow_head_gesture (dwg : Drawing) (tip direction : Point)
    (style : StrokeStyle) (seed : Z) (size open_angle_deg : Q) : result Drawing :=
  let rng := default_rng seed in
  '(dx, dy) <- _unit (fst direction) (snd direction);;
  let '(u, rng) := uniform rng (-9.0) 9.0 in
  let angL := math_radians (open_angle_deg + u) in
  let '(u, rng) := uniform rng (-12.0) 12.0 in
  let angR := math_radians (open_angle_deg + u) in
  let '(u, rng) := uniform rng 0.85 1.15 in
  let sizeL := size * u in
  let '(u, rng) := uniform rng 0.75 1.20 in
  let sizeR := size * u in
  let '(lx, ly) := rot dx dy angL in
  let '(rx, ry) := rot dx dy (- angR) in
  let pL0 := (fst tip - lx * sizeL, snd tip - ly * sizeL) in
  let pR0 := (fst tip - rx * sizeR, snd tip - ry * sizeR) in
  '(pL1, rng) <- kink_point pL0 tip 2.0 rng;;
  '(pR1, rng) <- kink_point pR0 tip 2.5 rng;;
  '(_, dwg) <- stroke_line dwg pL0 pL1 style (seed + 111) 14;;
  '(_, dwg) <- stroke_line dwg pL1 tip style (seed + 112) 10;;
  '(_, dwg) <- stroke_line dwg pR0 pR1 style (seed + 211) 14;;
  '(_, dwg) <- stroke_line dwg pR1 tip style (seed + 212) 10;;
  ret dwg.

(** The end points of the tick at parameter [t] of an axis with unit normal
    [(nx, ny)] (lines 290-294). *)
Definition tick_ends (axis_p0 axis_p1 : Point) (nx ny tick_len t : Q)
  : Point * Point :=
  let x := fst axis_p0 + (fst axis_p1 - fst axis_p0) * t in
  let y := snd axis_p0 + (snd axis_p1 - snd axis_p0) * t in
  let a := (x - nx * tick_len / 2.0, y - ny * tick_len / 2.0) in
  let b := (x + nx * tick_len / 2.0, y + ny * tick_len / 2.0) in
  (a, b).

Definition ticks_on_axis (dwg : Drawing) (axis_p0 axis_p1 : Point)
    (tick_positions_t : list Q) (tick_len : Q) (style : StrokeStyle) (seed : Z)
  : result Drawing :=
  '(nx, ny) <- _normal axis_p0 axis_p1;;
  for_each (enumerate tick_positions_t)
    (fun it dwg =>
       let '(i, t) := it in
       let '(a, b) := tick_ends axis_p0 axis_p1 nx ny tick_len t in
       '(_, dwg) <- stroke_line dwg a b style (seed + i * 31) 12;;
       ret dwg)
    dwg.

End Strokes.

(** ** plot.py *)

Section Plot.

Context {P : Platform}.

Record PlotBox : Type := mkPlotBox {
  x0 : Q;
  y0 : Q;
  w : Q;
  h : Q;
  xmin : Q;
  xmax : Q;
  ymin : Q;
  ymax : Q
}.

(** [PlotBox.xy]. *)
Definition xy (self : PlotBox) (x y : Q) : result Point :=
  u <- fdiv (x - xmin self) (xmax self - xmin self);;
  v <- fdiv (y - ymin self) (ymax self - ymin self);;
  let sx := x0 self + u * w self in
  let sy := y0 self + (1.0 - v) * h self in
  ret (sx, sy).

Definition project_point_to_axes (dwg : Drawing) (box : PlotBox) (x y : Q)
    (dashed_style : StrokeStyle) (seed : Z) : result Drawing :=
  p <- xy box x y;;
  px <- xy box x (ymin box);;
  py <- xy box (xmin box) y;;
  '(_, dwg) <- stroke_line_dashed dwg p px dashed_style (seed + 1) 50 9 11;;
  '(_, dwg) <- stroke_line_dashed dwg p py dashed_style (seed + 2) 50 9 11;;
  let r := 5.0 in
  '(_, dwg) <- stroke_line dwg (fst p - r, snd p) (fst p + r, snd p)
                 dashed_style (seed + 3) 16;;
  '(_, dwg) <- stroke_line dwg (fst p, snd p - r) (fst p, snd p + r)
                 dashed_style (seed + 4) 16;;
  ret dwg.

(** The caller's function [f] may raise. *)
Definition sample_func (box : PlotBox) (f : Q -> result Q) (n : Z)
  : result (list Point) :=
  for_each (range n)
    (fun i pts =>
       t <- truediv i (n - 1);;
       let x := xmin box + (xmax box - xmin box) * t in
       y <- f x;;
       p <- xy box x y;;
       ret (pts ++ [p]))
    [].

(** The caller's function [g] may raise. *)
Definition sample_parametric (box : PlotBox) (g : Q -> result (Q * Q)) (n : Z)
  : result (list Point) :=
  for_each (range n)
    (fun i pts =>
       t <- truediv i (n - 1);;
       '(x, y) <- g t;;
       p <- xy box x y;;
       ret (pts ++ [p]))
    [].

(** A list comprehension [[g(i) for i in xs]] whose element may raise. *)
Fixpoint comprehension {A B : Type} (g : A -> result B) (xs : list A)
  : result (list B) :=
  match xs with
  | [] => ret []
  | x :: xs' => b <- g x;; bs <- comprehension g xs';; ret (b :: bs)
  end.

Definition draw_axes (dwg : Drawing) (box : PlotBox) (axis_style : StrokeStyle)
    (seed : Z) (ticks : Z) (arrows : bool) : result Drawing :=
  let x_axis_y := ymin box in
  let y_axis_x := xmin box in
  origin <- xy box y_axis_x x_axis_y;;
  x_end <- xy box (xmax box) x_axis_y;;
  y_end <- xy box y_axis_x (ymax box);;
  '(_, dwg) <- stroke_line dwg origin x_end axis_style (seed + 1) 90;;
  '(_, dwg) <- stroke_line dwg origin y_end axis_style (seed + 2) 90;;
  dwg <- (if arrows then
            dwg <- arrow_head_gesture dwg x_end (1, 0) axis_style (seed + 3) 14 30.0;;
            arrow_head_gesture dwg y_end (0, -1) axis_style (seed + 4) 14 30.0
          else ret dwg);;
  if (ticks >? 0)%Z then
    ts <- comprehension (fun i => truediv i ticks) (range2 1 ticks);;
    dwg <- ticks_on_axis dwg origin x_end ts 20 axis_style (seed + 10);;
    ticks_on_axis dwg origin y_end ts 20 axis_style (seed + 20)
  else ret dwg.

Definition draw_curve (dwg : Drawing) (pts : list Point) (style : StrokeStyle)
    (seed : Z) (n_per_seg : Z) : result Drawing :=
  stroke_polyline dwg pts style seed n_per_seg.

(** ** examples/make_gallery.py: the [parabola] figure *)

Definition W : Q := 900.
Definition H : Q := 900.
Definition M : Q := 120.

Definition BOX : PlotBox :=
  mkPlotBox M M (W - 2 * M) (H - 2 * M) (-1.2) 4.8 (-2.6) 6.4.

Definition axis_style : StrokeStyle :=
  mkStrokeStyle 2.2 0.25 1.0 0.0 "#111" "round" "round".
Definition data_style : StrokeStyle :=
  mkStrokeStyle 2.2 0.55 0.75 0.10 "#111" "round" "round".
Definition proj_style : StrokeStyle :=
  mkStrokeStyle 2.0 0.35 0.65 0.10 "#111" "round" "round".

(** [lambda x: 0.35 * (x - 1.6) * (x - 1.6) - 1.3]. *)
Definition parabola_f (x : Q) : result Q :=
  ret (0.35 * (x - 1.6) * (x - 1.6) - 1.3).

(** The function [draw] that [parabola()] returns. *)
Definition parabola (dwg : Drawing) : result Drawing :=
  dwg <- draw_axes dwg BOX axis_style 1 6 true;;
  pts <- sample_func BOX parabola_f 110;;
  dwg <- draw_curve dwg pts data_style 100 12;;
  let x0 := 3.2 in
  y0 <- parabola_f x0;;
  project_point_to_axes dwg BOX x0 y0 proj_style 900.

End Plot.

(** ** Closed forms

    The helpers of the kernel never raise; these are their values, and the
    point the sampling loop appends at index [j]. *)

Section ClosedForms.

Context {P : Platform}.

(** The value of [_unit]. *)
Definition unit_val (vx vy : Q) : Q * Q :=
  let n := math_hypot vx vy in
  if Qeq_bool n 0 then (0, 0) else (vx / n, vy / n).

(** The value of [_normal]. *)
Definition normal_val (p0 p1 : Point) : Q * Q :=
  let u := unit_val (fst p1 - fst p0) (snd p1 - snd p0) in
  (- snd u, fst u).

(** The value of [_taper_k]. *)
Definition taper_val (t taper : Q) : Q :=
  if Qle_bool taper 0 then 1 else py_min 1 (py_min t (1 - t) / taper).

(** The parametric position of sample [i] of [n]. *)
Definition sample_t (n i : Z) : Q := inject_Z i / inject_Z (n - 1).

(** The phase and the second harmonic weight that a generator in state [rng]
    hands to one call of [_smooth_offset]. *)
Definition phase_of (rng : Generator) : Q := fst (uniform rng 0 (2 * math_pi)).
Definition a2_of (rng : Generator) : Q :=
  fst (uniform (snd (uniform rng 0 (2 * math_pi))) (-0.10) 0.10).

(** The base point at [t] displaced by [off] along [(nx, ny)]. *)
Definition displaced (p0 p1 : Point) (nx ny t off : Q) : Point :=
  (fst p0 + (fst p1 - fst p0) * t + nx * off,
   snd p0 + (snd p1 - snd p0) * t + ny * off).

(** The perpendicular offset of sample [j] when the stream stands at draw
    [pos + 2 * j]. *)
Definition sample_off (style : StrokeStyle) (n : Z) (seed : Z) (pos j : nat) : Q :=
  let t := sample_t n (Z.of_nat j) in
  let rng := mkGenerator seed (pos + 2 * j) in
  amp style * taper_val t (taper style)
  * drift (waves style) t (phase_of rng) (a2_of rng).

(** The point of sample [j]. *)
Definition sample_point (p0 p1 : Point) (style : StrokeStyle) (n : Z) (seed : Z)
    (pos j : nat) : Point :=
  let '(nx, ny) := normal_val p0 p1 in
  displaced p0 p1 nx ny (sample_t n (Z.of_nat j)) (sample_off style n seed pos j).

(** The commands pushed for a point list. *)
Definition path_commands (pts : list Point) : list string :=
  match pts with
  | [] => []
  | p :: rest => move_to p :: map line_to rest
  end.

(** The [n] points of a stroke whose stream stands at draw [pos]. *)
Definition kernel_points (p0 p1 : Point) (style : StrokeStyle) (n : Z) (seed : Z)
    (pos : nat) : list Point :=
  map (sample_point p0 p1 style n seed pos) (seq 0 (Z.to_nat n)).

(** The path element emitted for a point list. *)
Definition stroke_path (style : StrokeStyle) (dasharray dashoffset : option string)
    (pts : list Point) : Path :=
  mkPath "none"%string (color style) (width style) (linecap style) (linejoin style)
         dasharray dashoffset (path_commands pts).

(** The stroke as section 4.2 of the specification words it: one
    [(phase, a2)] pair, drawn when the stream is created, drives the offset of
    every sample. *)
Definition single_pair_off (style : StrokeStyle) (n : Z) (seed : Z) (j : nat) : Q :=
  let t := sample_t n (Z.of_nat j) in
  let rng := default_rng seed in
  amp style * taper_val t (taper style)
  * drift (waves style) t (phase_of rng) (a2_of rng).

Definition single_pair_points (p0 p1 : Point) (style : StrokeStyle) (n : Z)
    (seed : Z) : list Point :=
  map (fun j => displaced p0 p1 (fst (normal_val p0 p1)) (snd (normal_val p0 p1))
                  (sample_t n (Z.of_nat j)) (single_pair_off style n seed j))
      (seq 0 (Z.to_nat n)).

(** The path of segment [i] of a polyline. *)
Definition polyline_path (points : list Point) (style : StrokeStyle) (seed : Z)
    (n_per_seg : Z) (i : Z) : Path :=
  stroke_path style None None
    (kernel_points (nth (Z.to_nat i) points (0, 0)) (nth (Z.to_nat (i + 1)) points (0, 0))
       style n_per_seg (seed + i * 97) 0).

(** The jitter factors, the dash and gap lengths and the dash phase of a dashed
    stroke: the first, the second and the [2 * n + 3]-rd draw of the stream
    seeded with [seed]; the [2 * n] draws in between perturb the geometry. *)
Definition dash_jitter (seed : Z) : Q := fst (uniform (mkGenerator seed 0) 0.85 1.15).
Definition gap_jitter (seed : Z) : Q := fst (uniform (mkGenerator seed 1) 0.85 1.20).
Definition dash_length (dash_base : Q) (seed : Z) : Q := dash_base * dash_jitter seed.
Definition gap_length (gap_base : Q) (seed : Z) : Q := gap_base * gap_jitter seed.
Definition dash_phase (dash_base gap_base : Q) (seed n : Z) : Q :=
  fst (uniform (mkGenerator seed (2 + 2 * Z.to_nat n)) 0
         (dash_length dash_base seed + gap_length gap_base seed)).

(** The path of the tick that [ticks_on_axis] draws for the enumerated
    position [(i, t)]. *)
Definition tick_path (axis_p0 axis_p1 : Point) (tick_len : Q) (style : StrokeStyle)
    (seed : Z) (it : Z * Q) : Path :=
  let '(i, t) := it in
  let '(nx, ny) := normal_val axis_p0 axis_p1 in
  let '(a, b) := tick_ends axis_p0 axis_p1 nx ny tick_len t in
  stroke_path style None None (kernel_points a b style 12 (seed + i * 31) 0).

(** The tick positions of [draw_axes]: [i / ticks] for [i] in
    [range(1, ticks)]. *)
Definition tick_fractions (ticks : Z) : list Q :=
  map (fun i => inject_Z i / inject_Z ticks) (range2 1 ticks).

(** What a call that returns a pair hands back, without the drawing. *)
Definition emitted {A B : Type} (r : result (A * B)) : result A :=
  match r with
  | inl e => inl e
  | inr (a, _) => inr a
  end.

End ClosedForms.

(** Numerical equality of points (Python's [==] on tuples of floats). *)
Definition point_eq (p q : Point) : Prop := fst p == fst q /\ snd p == snd q.

(** The value of [xy] on a box with non-zero extents. *)
Definition xy_val (b : PlotBox) (x y : Q) : Point :=
  (x0 b + (x - xmin b) / (xmax b - xmin b) * w b,
   y0 b + (1.0 - (y - ymin b) / (ymax b - ymin b)) * h b).

(** Sample [i] of [n] of a function [g] that does not raise. *)
Definition func_sample (b : PlotBox) (g : Q -> Q) (n : Z) (i : Z) : Point :=
  let x := xmin b + (xmax b - xmin b) * sample_t n i in
  xy_val b x (g x).

(** The body of the [parabola] lambda. *)
Definition parabola_g (x : Q) : Q := 0.35 * (x - 1.6) * (x - 1.6) - 1.3.

(** The invariant of a plot box. *)
Definition valid_box (b : PlotBox) : Prop :=
  xmin b < xmax b /\ ymin b < ymax b /\ 0 < w b /\ 0 < h b.

(** The undisplaced point of the segment at parameter [t] ([bx], [by] of the
    sampling loop). *)
Definition base_point (p0 p1 : Point) (t : Q) : Point :=
  (fst p0 + (fst p1 - fst p0) * t, snd p0 + (snd p1 - snd p0) * t).

(** The scalar product of two vectors of the plane. *)
Definition dot (u v : Q * Q) : Q := fst u * fst v + snd u * snd v.

(** The abscissa of sample [i] of [n] in [sample_func]. *)
Definition sample_x (b : PlotBox) (n i : Z) : Q :=
  xmin b + (xmax b - xmin b) * sample_t n i.

(** ** A concrete platform for running the model

    Stand-ins for libm and the bit generator, so that the definitions can be
    evaluated on concrete inputs: a rational bump in [-1, 1] for the sine, its
    companion for the cosine, the 1-norm for [hypot], and a stream that cycles
    through 0, 1/4, 1/2, 3/4. *)

Module TestPlatform.

Definition sin_q (x : Q) : Q := 2 * x / (1 + x * x).
Definition cos_q (x : Q) : Q := (1 - x * x) / (1 + x * x).
Definition hypot_q (x y : Q) : Q := Qabs x + Qabs y.
Definition stream (seed : Z) (k : nat) : Q := Z.of_nat (k mod 4) # 4.
Definition fmt (k : nat) (x : Q) : string := "?"%string.

#[export] Instance platform : Platform.
Proof.
  refine {| math_sin := sin_q;
            math_cos := cos_q;
            math_hypot := hypot_q;
            next_double := stream;
            format_f := fmt |}.
  intros seed k. unfold stream, Qle, Qlt; cbn [Qnum Qden].
  pose proof (Nat.mod_upper_bound k 4 ltac:(discriminate)). lia.
Defined.

(** A second platform: the same libm and formatting, the same stream for
    seed 0, and a different stream for every other seed. *)
Definition stream_other (seed : Z) (k : nat) : Q :=
  if (seed =? 0)%Z then stream seed k else 1 # 2.

#[export] Instance platform_other : Platform.
Proof.
  refine {| math_sin := sin_q;
            math_cos := cos_q;
            math_hypot := hypot_q;
            next_double := stream_other;
            format_f := fmt |}.
  intros seed k. unfold stream_other.
  destruct (seed =? 0)%Z; [|split; [discriminate | reflexivity]].
  unfold stream, Qle, Qlt; cbn [Qnum Qden].
  pose proof (Nat.mod_upper_bound k 4 ltac:(discriminate)). lia.
Defined.

End TestPlatform.

(** * Properties *)

(** ** Ranges *)

Lemma range2_length (lo hi : Z) : length (range2 lo hi) = Z.to_nat (hi - lo).
Proof. unfold range2. now rewrite length_map, length_seq. Qed.

Lemma range_length (n : Z) : length (range n) = Z.to_nat n.
Proof. unfold range. rewrite range2_length. f_equal. lia. Qed.

Lemma range_of_nat (m : nat) : range (Z.of_nat m) = map Z.of_nat (seq 0 m).
Proof.
  unfold range, range2. rewrite Z.sub_0_r, Nat2Z.id.
  apply map_ext. intros k. reflexivity.
Qed.

Lemma range_to_nat (n : Z) :
  (0 <= n)%Z -> range n = map Z.of_nat (seq 0 (Z.to_nat n)).
Proof. intros Hn. rewrite <- range_of_nat, Z2Nat.id by exact Hn. reflexivity. Qed.

Lemma range_nonpos (n : Z) : (n <= 0)%Z -> range n = [].
Proof.
  intros Hn. unfold range, range2.
  replace (Z.to_nat (n - 0)) with 0%nat by lia. reflexivity.
Qed.

Lemma range2_In (lo hi i : Z) : In i (range2 lo hi) <-> (lo <= i < hi)%Z.
Proof.
  unfold range2. rewrite in_map_iff. split.
  - intros (k & <- & Hk). apply in_seq in Hk. lia.
  - intros Hi. exists (Z.to_nat (i - lo)). split; [lia|].
    apply in_seq. lia.
Qed.

(** ** The helpers never raise *)

Section KernelFacts.

Context {P : Platform}.

Lemma fdiv_ok (a b : Q) : ~ b == 0 -> fdiv a b = inr (a / b).
Proof.
  intros Hb. unfold fdiv.
  destruct (Qeq_bool b 0) eqn:E; [|reflexivity].
  apply Qeq_bool_iff in E. contradiction.
Qed.

Lemma fdiv_zero (a b : Q) : b == 0 -> fdiv a b = inl ZeroDivisionError.
Proof.
  intros Hb. unfold fdiv. apply Qeq_bool_iff in Hb. now rewrite Hb.
Qed.

Lemma truediv_ok (a b : Z) : b <> 0%Z -> truediv a b = inr (inject_Z a / inject_Z b).
Proof.
  intros Hb. unfold truediv. apply Z.eqb_neq in Hb. now rewrite Hb.
Qed.

Lemma _unit_total (vx vy : Q) : _unit vx vy = inr (unit_val vx vy).
Proof.
  unfold _unit, unit_val.
  destruct (Qeq_bool (math_hypot vx vy) 0) eqn:E; [reflexivity|].
  apply Qeq_bool_neq in E.
  rewrite !fdiv_ok by exact E. reflexivity.
Qed.

Lemma _normal_total (p0 p1 : Point) : _normal p0 p1 = inr (normal_val p0 p1).
Proof.
  unfold _normal, normal_val. rewrite _unit_total. cbn [bind].
  destruct (unit_val _ _). reflexivity.
Qed.

Lemma _taper_k_total (t taper : Q) : _taper_k t taper = inr (taper_val t taper).
Proof.
  unfold _taper_k, taper_val.
  destruct (Qle_bool taper 0) eqn:E; [reflexivity|].
  rewrite fdiv_ok; [reflexivity|].
  intros H0. rewrite <- Bool.not_true_iff_false in E. apply E.
  apply Qle_bool_iff. rewrite H0. apply Qle_refl.
Qed.

End KernelFacts.

(** ** The sampling loop *)

Section Kernel.

Context {P : Platform}.

Lemma _smooth_offset_eq (t waves : Q) (rng : Generator) :
  _smooth_offset t rng waves
  = (drift waves t (phase_of rng) (a2_of rng),
     mkGenerator (gen_seed rng) (S (S (gen_pos rng)))).
Proof. reflexivity. Qed.

Lemma sample_step_eq (p0 p1 : Point) (style : StrokeStyle) (n seed : Z)
    (pos j : nat) (pts : list Point) :
  (n - 1 <> 0)%Z ->
  sample_step p0 p1 style (fst (normal_val p0 p1)) (snd (normal_val p0 p1)) n
    (Z.of_nat j) (pts, mkGenerator seed (pos + 2 * j))
  = inr (pts ++ [sample_point p0 p1 style n seed pos j],
         mkGenerator seed (pos + 2 * S j)).
Proof.
  intros Hn. unfold sample_step.
  rewrite truediv_ok by exact Hn. cbn [bind].
  rewrite _taper_k_total. cbn [bind].
  rewrite _smooth_offset_eq. cbn [gen_seed gen_pos ret].
  unfold sample_point, sample_off, displaced, sample_t.
  destruct (normal_val p0 p1) as [nx ny]. cbn [fst snd].
  replace (pos + 2 * S j)%nat with (S (S (pos + 2 * j))) by lia.
  reflexivity.
Qed.

Lemma sampling_loop (p0 p1 : Point) (style : StrokeStyle) (n seed : Z) (pos : nat) :
  (n - 1 <> 0)%Z ->
  forall (m a : nat) (pts : list Point),
    for_each (map Z.of_nat (seq a m))
      (sample_step p0 p1 style (fst (normal_val p0 p1)) (snd (normal_val p0 p1)) n)
      (pts, mkGenerator seed (pos + 2 * a))
    = inr (pts ++ map (sample_point p0 p1 style n seed pos) (seq a m),
           mkGenerator seed (pos + 2 * (a + m))).
Proof.
  intros Hn. induction m as [|m IH]; intros a pts.
  - cbn [seq map for_each]. rewrite app_nil_r, Nat.add_0_r. reflexivity.
  - cbn [seq map for_each]. rewrite sample_step_eq by exact Hn. cbn [bind].
    rewrite IH. rewrite <- app_assoc. cbn [app].
    replace (a + S m)%nat with (S a + m)%nat by lia. reflexivity.
Qed.

(** For [n >= 2] the kernel returns the [n] sample points and leaves the
    generator [2 * n] draws further. *)
Lemma perturb_segment_eq (p0 p1 : Point) (style : StrokeStyle) (seed : Z)
    (pos : nat) (n : Z) :
  (2 <= n)%Z ->
  perturb_segment p0 p1 style (mkGenerator seed pos) n
  = inr (map (sample_point p0 p1 style n seed pos) (seq 0 (Z.to_nat n)),
         mkGenerator seed (pos + 2 * Z.to_nat n)).
Proof.
  intros Hn. unfold perturb_segment. rewrite _normal_total. cbn [bind].
  destruct (normal_val p0 p1) as [nx ny] eqn:En.
  rewrite range_to_nat by lia.
  pose proof (sampling_loop p0 p1 style n seed pos ltac:(lia) (Z.to_nat n) 0 []) as L.
  rewrite En in L. cbn [fst snd app] in L.
  rewrite Nat.mul_0_r, Nat.add_0_r in L.
  exact L.
Qed.

(** With one sample the parametric position is [0 / 0]. *)
Lemma perturb_segment_one (p0 p1 : Point) (style : StrokeStyle) (rng : Generator) :
  perturb_segment p0 p1 style rng 1 = inl ZeroDivisionError.
Proof.
  unfold perturb_segment. rewrite _normal_total. cbn [bind].
  destruct (normal_val p0 p1). reflexivity.
Qed.

(** With no sample the loop does not run. *)
Lemma perturb_segment_none (p0 p1 : Point) (style : StrokeStyle) (rng : Generator)
    (n : Z) :
  (n <= 0)%Z -> perturb_segment p0 p1 style rng n = inr ([], rng).
Proof.
  intros Hn. unfold perturb_segment. rewrite _normal_total. cbn [bind].
  destruct (normal_val p0 p1). rewrite range_nonpos by exact Hn. reflexivity.
Qed.

End Kernel.

(** ** Plain strokes *)

Section PlainStroke.

Context {P : Platform}.

Lemma fold_push_commands (rest : list Point) (path : Path) :
  commands (fold_left (fun pa q => push pa (line_to q)) rest path)
  = (commands path ++ map line_to rest)%list.
Proof.
  revert path. induction rest as [|q rest IH]; intros path; cbn [fold_left map].
  - now rewrite app_nil_r.
  - rewrite IH. cbn [push commands]. now rewrite <- app_assoc.
Qed.

Lemma fold_push_attrs (rest : list Point) (path : Path) :
  let r := fold_left (fun pa q => push pa (line_to q)) rest path in
  fill r = fill path /\ stroke r = stroke path /\ stroke_width r = stroke_width path
  /\ stroke_linecap r = stroke_linecap path
  /\ stroke_linejoin r = stroke_linejoin path
  /\ stroke_dasharray r = stroke_dasharray path
  /\ stroke_dashoffset r = stroke_dashoffset path.
Proof.
  revert path. induction rest as [|q rest IH]; intros path; cbn [fold_left].
  - repeat split.
  - specialize (IH (push path (line_to q))). cbn zeta in IH |- *.
    cbn [push fill stroke stroke_width stroke_linecap stroke_linejoin
         stroke_dasharray stroke_dashoffset] in IH. exact IH.
Qed.

Lemma push_points_cons (style : StrokeStyle) (dasharray : option string)
    (p : Point) (rest : list Point) :
  push_points (dwg_path style dasharray) (p :: rest)
  = inr (stroke_path style dasharray None (p :: rest)).
Proof.
  unfold push_points. cbn [getitem Z.ltb Z.compare Z.to_nat nth_error bind ret skipn].
  f_equal.
  pose proof (fold_push_commands rest (push (dwg_path style dasharray) (move_to p))) as Hc.
  pose proof (fold_push_attrs rest (push (dwg_path style dasharray) (move_to p))) as Ha.
  cbn zeta in Ha.
  destruct (fold_left _ rest _) as [f s sw lc lj da dof cs].
  cbn [push dwg_path commands fill stroke stroke_width stroke_linecap
       stroke_linejoin stroke_dasharray stroke_dashoffset app] in Hc, Ha.
  destruct Ha as (-> & -> & -> & -> & -> & -> & ->). subst cs.
  reflexivity.
Qed.

Lemma push_points_nil (path : Path) : push_points path [] = inl IndexError.
Proof. reflexivity. Qed.

Lemma kernel_points_length (p0 p1 : Point) (style : StrokeStyle) (n seed : Z)
    (pos : nat) :
  length (kernel_points p0 p1 style n seed pos) = Z.to_nat n.
Proof. unfold kernel_points. now rewrite length_map, length_seq. Qed.

Lemma path_commands_length (pts : list Point) :
  length (path_commands pts) = length pts.
Proof. destruct pts; cbn; [reflexivity|]. now rewrite length_map. Qed.

(** For [n >= 2], [stroke_line] adds the path of the [n] kernel points to the
    drawing and returns it. *)
Lemma stroke_line_eq (dwg : Drawing) (p0 p1 : Point) (style : StrokeStyle)
    (seed n : Z) :
  (2 <= n)%Z ->
  stroke_line dwg p0 p1 style seed n
  = inr (stroke_path style None None (kernel_points p0 p1 style n seed 0),
         (dwg ++ [stroke_path style None None (kernel_points p0 p1 style n seed 0)])%list).
Proof.
  intros Hn. unfold stroke_line, default_rng.
  rewrite perturb_segment_eq by exact Hn. cbn [bind].
  fold (kernel_points p0 p1 style n seed 0).
  pose proof (kernel_points_length p0 p1 style n seed 0) as Hl.
  destruct (kernel_points p0 p1 style n seed 0) as [|p rest].
  - cbn [length] in Hl. lia.
  - rewrite push_points_cons. reflexivity.
Qed.

Lemma stroke_line_one (dwg : Drawing) (p0 p1 : Point) (style : StrokeStyle)
    (seed : Z) :
  stroke_line dwg p0 p1 style seed 1 = inl ZeroDivisionError.
Proof. unfold stroke_line. now rewrite perturb_segment_one. Qed.

Lemma stroke_line_none (dwg : Drawing) (p0 p1 : Point) (style : StrokeStyle)
    (seed n : Z) :
  (n <= 0)%Z -> stroke_line dwg p0 p1 style seed n = inl IndexError.
Proof.
  intros Hn. unfold stroke_line. now rewrite perturb_segment_none by exact Hn.
Qed.

End PlainStroke.

(** ** Numerical facts *)

Lemma Qltb_lt (a b : Q) : Qltb a b = true <-> a < b.
Proof.
  unfold Qltb. rewrite negb_true_iff, <- not_true_iff_false, Qle_bool_iff.
  split; [apply Qnot_le_lt | apply Qlt_not_le].
Qed.

Lemma py_min_cases (a b : Q) :
  (b < a /\ py_min a b = b) \/ (a <= b /\ py_min a b = a).
Proof.
  unfold py_min. destruct (Qltb b a) eqn:E.
  - left. split; [now apply Qltb_lt | reflexivity].
  - right. split; [|reflexivity].
    apply Qnot_lt_le. intros Hlt. apply Qltb_lt in Hlt. congruence.
Qed.

Lemma Qle_bool_false (a b : Q) : Qle_bool a b = false <-> b < a.
Proof.
  rewrite <- not_true_iff_false, Qle_bool_iff.
  split; [apply Qnot_le_lt | apply Qlt_not_le].
Qed.

Lemma Qdiv_zero_l (a b : Q) : a == 0 -> a / b == 0.
Proof. intros Ha. unfold Qdiv. rewrite Ha. ring. Qed.

Lemma sample_t_first (n : Z) : sample_t n 0 == 0.
Proof. unfold sample_t. apply Qdiv_zero_l. reflexivity. Qed.

Lemma sample_t_last (n : Z) : (2 <= n)%Z -> sample_t n (n - 1) == 1.
Proof.
  intros Hn. unfold sample_t. field.
  intros H0. unfold Qeq in H0. cbn in H0. lia.
Qed.

Section Taper.

Context {P : Platform}.

(** The taper factor vanishes at both ends of the stroke. *)
Lemma taper_val_ends (t taper : Q) :
  0 < taper -> t == 0 \/ t == 1 -> taper_val t taper == 0.
Proof.
  intros Hpos Ht. unfold taper_val.
  destruct (Qle_bool taper 0) eqn:E.
  - apply Qle_bool_iff in E. exfalso. apply (Qlt_not_le _ _ Hpos E).
  - assert (He : py_min t (1 - t) == 0).
    { destruct (py_min_cases t (1 - t)) as [[Hlt ->]|[Hle ->]];
        destruct Ht as [Ht|Ht]; rewrite Ht in *; lra. }
    assert (Hq : py_min t (1 - t) / taper == 0) by (now apply Qdiv_zero_l).
    destruct (py_min_cases 1 (py_min t (1 - t) / taper)) as [[Hlt ->]|[Hle ->]].
    + exact Hq.
    + rewrite Hq in Hle. lra.
Qed.

(** Without taper the factor is one everywhere. *)
Lemma taper_val_flat (t taper : Q) : taper <= 0 -> taper_val t taper = 1.
Proof.
  intros Hle. unfold taper_val. apply Qle_bool_iff in Hle. now rewrite Hle.
Qed.

(** The normal of a zero-length segment is the zero vector. *)
Lemma normal_val_degenerate (p0 p1 : Point) :
  point_eq p0 p1 ->
  fst (normal_val p0 p1) == 0 /\ snd (normal_val p0 p1) == 0.
Proof.
  intros [Hx Hy]. unfold normal_val, unit_val.
  destruct (Qeq_bool _ 0); cbn [fst snd].
  - split; reflexivity.
  - split.
    + rewrite (Qdiv_zero_l (snd p1 - snd p0)); [reflexivity | rewrite Hy; ring].
    + apply Qdiv_zero_l. rewrite Hx. ring.
Qed.

Lemma displaced_no_offset (p0 p1 : Point) (nx ny t off : Q) :
  off == 0 ->
  point_eq (displaced p0 p1 nx ny t off)
           (fst p0 + (fst p1 - fst p0) * t, snd p0 + (snd p1 - snd p0) * t).
Proof.
  intros Hoff. unfold displaced, point_eq. cbn [fst snd].
  split; rewrite Hoff; ring.
Qed.

End Taper.

(** ** The drift is redrawn at every sample *)

Section Drift.

Context {P : Platform}.

Lemma sample_point_eq (p0 p1 : Point) (style : StrokeStyle) (n seed : Z) (j : nat) :
  sample_point p0 p1 style n seed 0 j
  = let t := sample_t n (Z.of_nat j) in
    let phase := 0 + (2 * math_pi - 0) * next_double seed (2 * j) in
    let a2 := -0.10 + (0.10 - -0.10) * next_double seed (2 * j + 1) in
    displaced p0 p1 (fst (normal_val p0 p1)) (snd (normal_val p0 p1)) t
      (amp style * taper_val t (taper style) * drift (waves style) t phase a2).
Proof.
  unfold sample_point, sample_off, phase_of, a2_of, uniform.
  cbn [fst snd gen_seed gen_pos].
  destruct (normal_val p0 p1) as [nx ny]. cbn [fst snd].
  replace (2 * j + 1)%nat with (S (0 + 2 * j)) by lia.
  replace (2 * j)%nat with (0 + 2 * j)%nat at 5 6 by lia.
  reflexivity.
Qed.

(** C1 (what the code does; the claim is that one [(phase, a2)] pair serves the
    whole stroke).  For [n >= 2] the kernel draws a fresh phase and a fresh
    second harmonic weight at every sample: it leaves the stream [2 * n] draws
    further, and the offset of sample [j] is the drift formula at
    [t = j / (n - 1)] with the phase taken from draw [2 * j] and the weight
    from draw [2 * j + 1]. *)
Theorem smooth_offset_redrawn_per_sample (p0 p1 : Point) (style : StrokeStyle)
    (seed n : Z) :
  (2 <= n)%Z ->
  exists pts : list Point,
    perturb_segment p0 p1 style (default_rng seed) n
    = inr (pts, mkGenerator seed (2 * Z.to_nat n))
    /\ length pts = Z.to_nat n
    /\ forall j : nat, (j < Z.to_nat n)%nat ->
         let t := sample_t n (Z.of_nat j) in
         let phase := 0 + (2 * math_pi - 0) * next_double seed (2 * j) in
         let a2 := -0.10 + (0.10 - -0.10) * next_double seed (2 * j + 1) in
         nth_error pts j
         = Some (displaced p0 p1 (fst (normal_val p0 p1)) (snd (normal_val p0 p1)) t
                   (amp style * taper_val t (taper style)
                    * drift (waves style) t phase a2)).
Proof.
  intros Hn. exists (kernel_points p0 p1 style n seed 0).
  split; [|split].
  - unfold default_rng. rewrite perturb_segment_eq by exact Hn. reflexivity.
  - apply kernel_points_length.
  - intros j Hj. cbn zeta. unfold kernel_points.
    rewrite nth_error_map, nth_error_seq.
    apply Nat.ltb_lt in Hj. rewrite Hj. cbn [option_map Nat.add].
    now rewrite sample_point_eq.
Qed.

End Drift.

(** The kernel on a horizontal segment with three samples: six draws are
    consumed, not two. *)
Lemma smooth_offset_redrawn_per_sample_witness :
  (2 <= 3)%Z
  /\ exists pts : list Point,
       perturb_segment (P := TestPlatform.platform) (0, 0) (100, 0) default_style
         (default_rng 0) 3
       = inr (pts, mkGenerator 0 6).
Proof.
  split; [lia|].
  destruct (smooth_offset_redrawn_per_sample (P := TestPlatform.platform)
              (0, 0) (100, 0) default_style 0 3 ltac:(lia)) as (pts & Hrun & _).
  exists pts. exact Hrun.
Defined.

(** On that input the middle sample of the kernel is not the point that a
    single [(phase, a2)] pair gives. *)
Lemma single_pair_reading_differs :
  exists pts rng,
    perturb_segment (P := TestPlatform.platform) (0, 0) (100, 0) default_style
      (default_rng 0) 3 = inr (pts, rng)
    /\ rng = mkGenerator 0 6
    /\ ~ point_eq (nth 1 pts (0, 0))
         (nth 1 (single_pair_points (P := TestPlatform.platform)
                   (0, 0) (100, 0) default_style 3 0) (0, 0)).
Proof.
  eexists. eexists. split; [|split].
  - unfold default_rng. apply perturb_segment_eq. lia.
  - reflexivity.
  - intros [_ Hy]. vm_compute in Hy. discriminate Hy.
Qed.

(** ** Determinism *)

(** What the kernel reads of the platform: the sine, the length function and
    the draws of the stream seeded with [seed] from position [pos] on, two per
    sample. *)
Lemma sample_point_agree (P1 P2 : Platform) (p0 p1 : Point) (style : StrokeStyle)
    (n seed : Z) (pos j : nat) :
  (forall x, @math_sin P1 x = @math_sin P2 x) ->
  (forall x y, @math_hypot P1 x y = @math_hypot P2 x y) ->
  @next_double P1 seed (pos + 2 * j) = @next_double P2 seed (pos + 2 * j) ->
  @next_double P1 seed (S (pos + 2 * j)) = @next_double P2 seed (S (pos + 2 * j)) ->
  @sample_point P1 p0 p1 style n seed pos j = @sample_point P2 p0 p1 style n seed pos j.
Proof.
  intros Hsin Hhyp Hd0 Hd1.
  unfold sample_point, normal_val, unit_val, sample_off, drift, phase_of, a2_of,
    uniform.
  cbn [fst snd gen_seed gen_pos].
  rewrite Hhyp, Hd0, Hd1, !Hsin. reflexivity.
Qed.

Lemma kernel_points_agree (P1 P2 : Platform) (p0 p1 : Point) (style : StrokeStyle)
    (n seed : Z) (pos : nat) :
  (forall x, @math_sin P1 x = @math_sin P2 x) ->
  (forall x y, @math_hypot P1 x y = @math_hypot P2 x y) ->
  (forall k : nat, (pos <= k < pos + 2 * Z.to_nat n)%nat ->
     @next_double P1 seed k = @next_double P2 seed k) ->
  @kernel_points P1 p0 p1 style n seed pos = @kernel_points P2 p0 p1 style n seed pos.
Proof.
  intros Hsin Hhyp Hnd. unfold kernel_points. apply map_ext_in.
  intros j Hj. apply in_seq in Hj.
  apply sample_point_agree; try assumption; apply Hnd; lia.
Qed.

Lemma stroke_path_agree (P1 P2 : Platform) (style : StrokeStyle)
    (dasharray dashoffset : option string) (pts : list Point) :
  (forall k x, @format_f P1 k x = @format_f P2 k x) ->
  @stroke_path P1 style dasharray dashoffset pts
  = @stroke_path P2 style dasharray dashoffset pts.
Proof.
  intros Hfmt. unfold stroke_path. f_equal.
  destruct pts as [|p rest]; cbn [path_commands]; [reflexivity|].
  f_equal.
  - unfold move_to. now rewrite !Hfmt.
  - apply map_ext. intros q. unfold line_to. now rewrite !Hfmt.
Qed.

(** C2.  The outcome of [stroke_line] is fixed by [(p0, p1, style, seed, n)]
    and by what the noise stream seeded with [seed] yields in its first
    [2 * n] draws.  Two invocations with the same arguments agree, bit for
    bit, on the point sequence and on the path, or raise the same exception,
    whatever the drawings they write into hold and whatever every other noise
    stream of the platform holds: the two runs may differ in all streams but
    the one of [seed].  The common outcome is [IndexError] for [n <= 0],
    [ZeroDivisionError] for [n = 1], and for [n >= 2] the path of [n] points
    that the kernel computes from a generator freshly seeded with [seed],
    which it leaves [2 * n] draws further. *)
Theorem stroke_line_deterministic (P1 P2 : Platform) (dwg1 dwg2 : Drawing)
    (p0 p1 : Point) (style : StrokeStyle) (seed n : Z) :
  (forall x, @math_sin P1 x = @math_sin P2 x) ->
  (forall x y, @math_hypot P1 x y = @math_hypot P2 x y) ->
  (forall k x, @format_f P1 k x = @format_f P2 k x) ->
  (forall k : nat, (Z.of_nat k < 2 * n)%Z ->
     @next_double P1 seed k = @next_double P2 seed k) ->
  emitted (@perturb_segment P1 p0 p1 style (default_rng seed) n)
  = emitted (@perturb_segment P2 p0 p1 style (default_rng seed) n)
  /\ emitted (@stroke_line P1 dwg1 p0 p1 style seed n)
     = emitted (@stroke_line P2 dwg2 p0 p1 style seed n)
  /\ ((n <= 0)%Z -> @stroke_line P1 dwg1 p0 p1 style seed n = inl IndexError)
  /\ (n = 1%Z -> @stroke_line P1 dwg1 p0 p1 style seed n = inl ZeroDivisionError)
  /\ ((2 <= n)%Z ->
      exists (pts : list Point) (path : Path),
        @perturb_segment P1 p0 p1 style (default_rng seed) n
        = inr (pts, mkGenerator seed (2 * Z.to_nat n))
        /\ len pts = n
        /\ commands path = @path_commands P1 pts
        /\ @stroke_line P1 dwg1 p0 p1 style seed n = inr (path, (dwg1 ++ [path])%list)
        /\ @stroke_line P2 dwg2 p0 p1 style seed n = inr (path, (dwg2 ++ [path])%list)).
Proof.
  intros Hsin Hhyp Hfmt Hnd.
  assert (Hcases : (n <= 0)%Z \/ n = 1%Z \/ (2 <= n)%Z) by lia.
  assert (Hkp : (2 <= n)%Z ->
                @kernel_points P1 p0 p1 style n seed 0
                = @kernel_points P2 p0 p1 style n seed 0).
  { intros Hn. apply kernel_points_agree; try assumption.
    intros k Hk. apply Hnd. lia. }
  assert (Hpath : (2 <= n)%Z ->
                  @stroke_path P1 style None None (@kernel_points P1 p0 p1 style n seed 0)
                  = @stroke_path P2 style None None (@kernel_points P2 p0 p1 style n seed 0)).
  { intros Hn. rewrite (Hkp Hn). now apply stroke_path_agree. }
  split; [|split; [|split; [|split]]].
  - destruct Hcases as [H0|[->|Hn]].
    + now rewrite !perturb_segment_none by exact H0.
    + now rewrite !perturb_segment_one.
    + unfold default_rng. rewrite !perturb_segment_eq by exact Hn.
      cbn [emitted]. fold (@kernel_points P1 p0 p1 style n seed 0).
      fold (@kernel_points P2 p0 p1 style n seed 0). now rewrite (Hkp Hn).
  - destruct Hcases as [H0|[->|Hn]].
    + now rewrite !stroke_line_none by exact H0.
    + now rewrite !stroke_line_one.
    + rewrite !stroke_line_eq by exact Hn. cbn [emitted]. now rewrite (Hpath Hn).
  - apply stroke_line_none.
  - intros ->. apply stroke_line_one.
  - intros Hn.
    exists (@kernel_points P1 p0 p1 style n seed 0),
           (@stroke_path P1 style None None (@kernel_points P1 p0 p1 style n seed 0)).
    split; [unfold default_rng; now apply perturb_segment_eq|].
    split; [unfold len; rewrite kernel_points_length; lia|].
    split; [reflexivity|].
    split; [now apply stroke_line_eq|].
    rewrite (Hpath Hn). now apply stroke_line_eq.
Qed.

(** Two runs on platforms whose streams differ for every seed but 0, writing
    into different drawings. *)
Lemma stroke_line_deterministic_witness :
  emitted (@stroke_line TestPlatform.platform [] (0, 0) (100, 0) default_style 0 3)
  = emitted (@stroke_line TestPlatform.platform_other
               [@stroke_path TestPlatform.platform default_style None None []]
               (0, 0) (100, 0) default_style 0 3).
Proof.
  refine (proj1 (proj2 (stroke_line_deterministic TestPlatform.platform
                          TestPlatform.platform_other []
                          [@stroke_path TestPlatform.platform default_style None None []]
                          (0, 0) (100, 0) default_style 0 3 _ _ _ _)));
    reflexivity.
Defined.


(** ** Degenerate segments *)

(** C3, as stated, fails: with a single sample the parametric position is
    [0 / 0] and the kernel raises. *)
Lemma degenerate_single_sample_raises :
  stroke_line (P := TestPlatform.platform) [] (1, 1) (1, 1) default_style 0 1
  = inl ZeroDivisionError.
Proof. reflexivity. Qed.

(** With no sample at all the empty point list is indexed. *)
Lemma degenerate_no_sample_raises :
  stroke_line (P := TestPlatform.platform) [] (1, 1) (1, 1) default_style 0 0
  = inl IndexError.
Proof. reflexivity. Qed.

Section Degenerate.

Context {P : Platform}.

Lemma sample_point_degenerate (p0 p1 : Point) (style : StrokeStyle) (n seed : Z)
    (pos j : nat) :
  point_eq p0 p1 -> point_eq (sample_point p0 p1 style n seed pos j) p0.
Proof.
  intros Heq. destruct (normal_val_degenerate p0 p1 Heq) as [Hnx Hny].
  destruct Heq as [Hx Hy].
  unfold sample_point. destruct (normal_val p0 p1) as [nx ny].
  cbn [fst snd] in Hnx, Hny. unfold displaced, point_eq. cbn [fst snd].
  split.
  - rewrite Hnx, Hx. ring.
  - rewrite Hny, Hy. ring.
Qed.

(** C3 (amended: [n >= 2]).  On a zero-length segment, with any style and
    seed and any [n >= 2], the kernel raises nothing and returns [n] points,
    each equal to [p0]; [stroke_line] returns the path and adds it to the
    drawing. *)
Theorem degenerate_segment (dwg : Drawing) (p0 p1 : Point) (style : StrokeStyle)
    (seed n : Z) :
  (2 <= n)%Z ->
  point_eq p0 p1 ->
  exists (pts : list Point) (rng : Generator) (path : Path),
    perturb_segment p0 p1 style (default_rng seed) n = inr (pts, rng)
    /\ len pts = n
    /\ Forall (fun q => point_eq q p0) pts
    /\ stroke_line dwg p0 p1 style seed n = inr (path, (dwg ++ [path])%list).
Proof.
  intros Hn Heq.
  exists (kernel_points p0 p1 style n seed 0), (mkGenerator seed (0 + 2 * Z.to_nat n)),
         (stroke_path style None None (kernel_points p0 p1 style n seed 0)).
  split; [|split; [|split]].
  - unfold default_rng. now apply perturb_segment_eq.
  - unfold len. rewrite kernel_points_length. lia.
  - unfold kernel_points. apply Forall_forall. intros q Hq.
    apply in_map_iff in Hq. destruct Hq as (j & <- & _).
    now apply sample_point_degenerate.
  - now apply stroke_line_eq.
Qed.

End Degenerate.

Lemma degenerate_segment_witness :
  (2 <= 4)%Z /\ point_eq (3, 5) (3, 5)
  /\ exists (pts : list Point) (rng : Generator) (path : Path),
       perturb_segment (P := TestPlatform.platform) (3, 5) (3, 5) default_style
         (default_rng 7) 4 = inr (pts, rng)
       /\ len pts = 4%Z
       /\ Forall (fun q => point_eq q (3, 5)) pts
       /\ stroke_line (P := TestPlatform.platform) [] (3, 5) (3, 5) default_style 7 4
          = inr (path, ([] ++ [path])%list).
Proof.
  assert (H2 : (2 <= 4)%Z) by lia.
  assert (He : point_eq (3, 5) (3, 5)) by (split; reflexivity).
  split; [exact H2|]. split; [exact He|].
  exact (degenerate_segment (P := TestPlatform.platform) [] (3, 5) (3, 5)
           default_style 7 4 H2 He).
Defined.

(** ** Taper *)

Section TaperBoundary.

Context {P : Platform}.

Lemma sample_off_first (style : StrokeStyle) (n seed : Z) (pos : nat) :
  0 < taper style -> sample_off style n seed pos 0 == 0.
Proof.
  intros Hpos. unfold sample_off. cbn [Z.of_nat].
  rewrite (taper_val_ends _ _ Hpos (or_introl (sample_t_first n))). ring.
Qed.

Lemma sample_off_last (style : StrokeStyle) (n seed : Z) (pos : nat) :
  (2 <= n)%Z -> 0 < taper style ->
  sample_off style n seed pos (Z.to_nat (n - 1)) == 0.
Proof.
  intros Hn Hpos. unfold sample_off. rewrite Z2Nat.id by lia.
  rewrite (taper_val_ends _ _ Hpos (or_intror (sample_t_last n Hn))). ring.
Qed.

Lemma sample_point_first (p0 p1 : Point) (style : StrokeStyle) (n seed : Z)
    (pos : nat) :
  0 < taper style -> point_eq (sample_point p0 p1 style n seed pos 0) p0.
Proof.
  intros Hpos. unfold sample_point. destruct (normal_val p0 p1) as [nx ny].
  pose proof (sample_off_first style n seed pos Hpos) as Hoff.
  pose proof (sample_t_first n) as Ht. cbn [Z.of_nat].
  unfold displaced, point_eq. cbn [fst snd].
  split; rewrite Hoff, Ht; ring.
Qed.

End TaperBoundary.

Section TaperClaim.

Context {P : Platform}.

(** C4.  With [taper > 0] the taper factor is exactly 0 at [t = 0] and at
    [t = 1], so the perpendicular offset [amp * k * drift] is 0 there whatever
    the drift: the first and the last sample of a stroke (at [t = 0] and
    [t = 1]) are displaced by an offset equal to 0, that is, they are the
    base points of the segment at 0 and at 1.  With [taper <= 0] the factor is
    1 at every [t], and every sample of a stroke is displaced by
    [amp * 1 * drift], the drift unattenuated. *)
Theorem taper_boundary (style : StrokeStyle) :
  (0 < taper style ->
     (exists k0 k1 : Q,
        _taper_k 0 (taper style) = inr k0 /\ _taper_k 1 (taper style) = inr k1
        /\ k0 == 0 /\ k1 == 0
        /\ forall s : Q, amp style * k0 * s == 0 /\ amp style * k1 * s == 0)
     /\ forall (p0 p1 : Point) (seed n : Z),
          (2 <= n)%Z ->
          exists (nrm : Q * Q) (pts : list Point) (rng : Generator) (off0 off1 : Q),
            _normal p0 p1 = inr nrm
            /\ perturb_segment p0 p1 style (default_rng seed) n = inr (pts, rng)
            /\ nth_error pts 0
               = Some (displaced p0 p1 (fst nrm) (snd nrm) (sample_t n 0) off0)
            /\ nth_error pts (Z.to_nat (n - 1))
               = Some (displaced p0 p1 (fst nrm) (snd nrm) (sample_t n (n - 1)) off1)
            /\ sample_t n 0 == 0 /\ sample_t n (n - 1) == 1
            /\ off0 == 0 /\ off1 == 0
            /\ point_eq (displaced p0 p1 (fst nrm) (snd nrm) (sample_t n 0) off0)
                 (base_point p0 p1 0)
            /\ point_eq (displaced p0 p1 (fst nrm) (snd nrm) (sample_t n (n - 1)) off1)
                 (base_point p0 p1 1))
  /\ (taper style <= 0 ->
        (forall t : Q, _taper_k t (taper style) = inr 1)
        /\ forall (p0 p1 : Point) (seed n : Z),
             (2 <= n)%Z ->
             exists (nrm : Q * Q) (pts : list Point) (rng : Generator),
               _normal p0 p1 = inr nrm
               /\ perturb_segment p0 p1 style (default_rng seed) n = inr (pts, rng)
               /\ len pts = n
               /\ forall j : nat, (j < Z.to_nat n)%nat ->
                    let t := sample_t n (Z.of_nat j) in
                    let phase := 0 + (2 * math_pi - 0) * next_double seed (2 * j) in
                    let a2 := -0.10 + (0.10 - -0.10) * next_double seed (2 * j + 1) in
                    nth_error pts j
                    = Some (displaced p0 p1 (fst nrm) (snd nrm) t
                              (amp style * 1 * drift (waves style) t phase a2))).
Proof.
  split.
  - intros Hpos. split.
    + exists (taper_val 0 (taper style)), (taper_val 1 (taper style)).
      assert (H0 : taper_val 0 (taper style) == 0)
        by (apply taper_val_ends; [exact Hpos | left; reflexivity]).
      assert (H1 : taper_val 1 (taper style) == 0)
        by (apply taper_val_ends; [exact Hpos | right; reflexivity]).
      repeat split; try apply _taper_k_total; try assumption.
      * rewrite H0. ring.
      * rewrite H1. ring.
    + intros p0 p1 seed n Hn.
      exists (normal_val p0 p1), (kernel_points p0 p1 style n seed 0),
             (mkGenerator seed (0 + 2 * Z.to_nat n)),
             (sample_off style n seed 0 0),
             (sample_off style n seed 0 (Z.to_nat (n - 1))).
      pose proof (sample_off_first style n seed 0 Hpos) as Hoff0.
      pose proof (sample_off_last style n seed 0 Hn Hpos) as Hoff1.
      pose proof (sample_t_first n) as Ht0.
      pose proof (sample_t_last n Hn) as Ht1.
      split; [apply _normal_total|].
      split; [unfold default_rng; now apply perturb_segment_eq|].
      unfold kernel_points. rewrite !nth_error_map, !nth_error_seq.
      replace (0 <? Z.to_nat n)%nat with true by (symmetry; apply Nat.ltb_lt; lia).
      replace (Z.to_nat (n - 1) <? Z.to_nat n)%nat with true
        by (symmetry; apply Nat.ltb_lt; lia).
      cbn [option_map Nat.add]. unfold sample_point.
      rewrite Z2Nat.id by lia.
      destruct (normal_val p0 p1) as [nx ny]. cbn [fst snd Z.of_nat].
      split; [reflexivity|]. split; [reflexivity|].
      split; [exact Ht0|]. split; [exact Ht1|].
      split; [exact Hoff0|]. split; [exact Hoff1|].
      unfold point_eq, displaced, base_point. cbn [fst snd].
      split; split; rewrite ?Hoff0, ?Hoff1, ?Ht0, ?Ht1; ring.
  - intros Hle. split.
    + intros t. rewrite _taper_k_total. now rewrite taper_val_flat.
    + intros p0 p1 seed n Hn.
      exists (normal_val p0 p1), (kernel_points p0 p1 style n seed 0),
             (mkGenerator seed (0 + 2 * Z.to_nat n)).
      split; [apply _normal_total|].
      split; [unfold default_rng; now apply perturb_segment_eq|].
      split; [unfold len; rewrite kernel_points_length; lia|].
      intros j Hj. cbn zeta. unfold kernel_points.
      rewrite nth_error_map, nth_error_seq.
      apply Nat.ltb_lt in Hj. rewrite Hj. cbn [option_map Nat.add].
      rewrite sample_point_eq. cbn zeta.
      rewrite taper_val_flat by exact Hle. reflexivity.
Qed.

End TaperClaim.

Lemma taper_boundary_witness :
  (0 < taper data_style /\ taper axis_style <= 0)
  /\ (exists k0 k1 : Q,
        _taper_k 0 (taper data_style) = inr k0
        /\ _taper_k 1 (taper data_style) = inr k1 /\ k0 == 0 /\ k1 == 0)
  /\ (forall t : Q, _taper_k t (taper axis_style) = inr 1).
Proof.
  assert (Hpos : 0 < taper data_style) by reflexivity.
  assert (Hflat : taper axis_style <= 0) by (cbn; discriminate).
  split; [split; assumption|]. split.
  - destruct (taper_boundary (P := TestPlatform.platform) data_style)
      as [Hends _].
    destruct (Hends Hpos) as [(k0 & k1 & E0 & E1 & Z0 & Z1 & _) _].
    exists k0, k1. split; [exact E0|]. split; [exact E1|]. split; [exact Z0 | exact Z1].
  - destruct (taper_boundary (P := TestPlatform.platform) axis_style)
      as [_ Hunit].
    exact (proj1 (Hunit Hflat)).
Defined.

(** ** Loops that add one path per element *)

Lemma for_each_append {A B : Type} (xs : list A)
    (body : A -> list B -> result (list B)) (g : A -> B) :
  (forall x, In x xs -> forall s, body x s = inr (s ++ [g x])%list) ->
  forall s, for_each xs body s = inr (s ++ map g xs)%list.
Proof.
  induction xs as [|x xs IH]; intros Hbody s; cbn [for_each map].
  - now rewrite app_nil_r.
  - rewrite Hbody by (left; reflexivity). cbn [bind].
    rewrite IH by (intros y Hy; apply Hbody; right; exact Hy).
    now rewrite <- app_assoc.
Qed.

Lemma getitem_nth {A : Type} (xs : list A) (i : Z) (d : A) :
  (0 <= i < len xs)%Z -> getitem xs i = inr (nth (Z.to_nat i) xs d).
Proof.
  unfold len, getitem. intros Hi.
  replace (i <? 0)%Z with false by (symmetry; apply Z.ltb_ge; lia).
  rewrite (nth_error_nth' xs d) by lia. reflexivity.
Qed.

(** ** Polylines *)

(** C5, as stated, fails: over three points with one sample per segment the
    first stroke divides [0] by [0], and no stroke is emitted. *)
Lemma polyline_single_sample_raises :
  stroke_polyline (P := TestPlatform.platform) [] [(0, 0); (10, 0); (10, 10)]
    default_style 5 1
  = inl ZeroDivisionError.
Proof. reflexivity. Qed.

Section Polyline.

Context {P : Platform}.

Lemma stroke_polyline_eq (dwg : Drawing) (points : list Point) (style : StrokeStyle)
    (seed n_per_seg : Z) :
  (2 <= len points)%Z -> (2 <= n_per_seg)%Z ->
  stroke_polyline dwg points style seed n_per_seg
  = inr (dwg ++ map (polyline_path points style seed n_per_seg)
                  (range (len points - 1)))%list.
Proof.
  intros Hk Hn. unfold stroke_polyline.
  replace (len points <? 2)%Z with false by (symmetry; apply Z.ltb_ge; lia).
  apply for_each_append. intros i Hi s.
  apply range2_In in Hi.
  rewrite (getitem_nth points i (0, 0)) by lia.
  rewrite (getitem_nth points (i + 1) (0, 0)) by lia. cbn [bind].
  rewrite stroke_line_eq by exact Hn. reflexivity.
Qed.

(** C5 (amended: [n_per_seg >= 2] when there are segments to draw).  A
    polyline over fewer than two points draws nothing and returns normally.
    Over [k >= 2] points, with at least two samples per segment, it adds
    exactly [k - 1] paths to the drawing, and path [i] is the stroke that
    [stroke_line] draws from point [i] to point [i + 1] with seed
    [seed + i * 97]. *)
Theorem polyline_segment_count (dwg : Drawing) (points : list Point)
    (style : StrokeStyle) (seed n_per_seg : Z) :
  ((len points < 2)%Z ->
     stroke_polyline dwg points style seed n_per_seg = inr dwg)
  /\ ((2 <= len points)%Z -> (2 <= n_per_seg)%Z ->
      exists paths : list Path,
        stroke_polyline dwg points style seed n_per_seg = inr (dwg ++ paths)%list
        /\ len paths = (len points - 1)%Z
        /\ forall i : nat, (Z.of_nat i < len points - 1)%Z ->
             exists (a b : Point) (path : Path),
               nth_error points i = Some a
               /\ nth_error points (S i) = Some b
               /\ nth_error paths i = Some path
               /\ forall d : Drawing,
                    stroke_line d a b style (seed + Z.of_nat i * 97) n_per_seg
                    = inr (path, (d ++ [path])%list)).
Proof.
  split.
  - intros Hk. unfold stroke_polyline.
    apply Z.ltb_lt in Hk. now rewrite Hk.
  - intros Hk Hn.
    exists (map (polyline_path points style seed n_per_seg) (range (len points - 1))).
    split; [now apply stroke_polyline_eq|]. split.
    + unfold len at 1. rewrite length_map, range_length. lia.
    + intros i Hi. unfold len in Hi, Hk.
      exists (nth i points (0, 0)), (nth (S i) points (0, 0)),
             (polyline_path points style seed n_per_seg (Z.of_nat i)).
      split; [apply nth_error_nth'; lia|].
      split; [apply nth_error_nth'; lia|]. split.
      * rewrite range_to_nat by (unfold len; lia).
        rewrite nth_error_map, nth_error_map, nth_error_seq.
        replace (i <? Z.to_nat (len points - 1))%nat with true
          by (symmetry; apply Nat.ltb_lt; unfold len; lia).
        reflexivity.
      * intros d. rewrite stroke_line_eq by exact Hn.
        unfold polyline_path.
        replace (Z.to_nat (Z.of_nat i + 1)) with (S i) by lia.
        rewrite Nat2Z.id. reflexivity.
Qed.

End Polyline.

Lemma polyline_segment_count_witness :
  ((len [(0, 0)] < 2)%Z
   /\ stroke_polyline (P := TestPlatform.platform) [] [(0, 0)] default_style 5 30
      = inr [])
  /\ ((2 <= len [(0, 0); (10, 0); (10, 10)])%Z /\ (2 <= 30)%Z
      /\ exists paths : list Path,
           stroke_polyline (P := TestPlatform.platform) []
             [(0, 0); (10, 0); (10, 10)] default_style 5 30 = inr ([] ++ paths)%list
           /\ len paths = 2%Z).
Proof.
  assert (H1 : (len [(0, 0)] < 2)%Z) by (cbn; lia).
  assert (H3 : (2 <= len [(0, 0); (10, 0); (10, 10)])%Z) by (cbn; lia).
  assert (Hn : (2 <= 30)%Z) by lia.
  split.
  - split; [exact H1|].
    exact (proj1 (polyline_segment_count (P := TestPlatform.platform)
                    [] [(0, 0)] default_style 5 30) H1).
  - split; [exact H3|]. split; [exact Hn|].
    destruct (proj2 (polyline_segment_count (P := TestPlatform.platform)
                       [] [(0, 0); (10, 0); (10, 10)] default_style 5 30) H3 Hn)
      as (paths & Hrun & Hlen & _).
    exists paths. split; assumption.
Defined.

(** ** The coordinate mapping *)

Lemma xy_ok (b : PlotBox) (x y : Q) :
  ~ xmax b == xmin b -> ~ ymax b == ymin b ->
  xy b x y = inr (xy_val b x y).
Proof.
  intros Hx Hy. unfold xy.
  rewrite !fdiv_ok by (intros H0; first [apply Hx | apply Hy]; lra).
  reflexivity.
Qed.

Lemma xy_raises (b : PlotBox) (x y : Q) :
  xmax b == xmin b \/ ymax b == ymin b -> xy b x y = inl ZeroDivisionError.
Proof.
  intros Hz. unfold xy.
  destruct (Qeq_dec (xmax b) (xmin b)) as [Hx|Hx].
  - rewrite fdiv_zero by lra. reflexivity.
  - rewrite fdiv_ok by lra. cbn [bind].
    destruct Hz as [Hz|Hz]; [contradiction|].
    rewrite fdiv_zero by lra. reflexivity.
Qed.

(** C6.  For a box that satisfies its invariant, [xy] sends the data corner
    [(xmin, ymin)] to the device point [(x0, y0 + h)] and the data corner
    [(xmax, ymax)] to [(x0 + w, y0)]. *)
Theorem xy_corners (b : PlotBox) :
  valid_box b ->
  exists p q : Point,
    xy b (xmin b) (ymin b) = inr p /\ point_eq p (x0 b, y0 b + h b)
    /\ xy b (xmax b) (ymax b) = inr q /\ point_eq q (x0 b + w b, y0 b).
Proof.
  intros (Hx & Hy & _ & _).
  assert (Hx' : ~ xmax b == xmin b) by lra.
  assert (Hy' : ~ ymax b == ymin b) by lra.
  eexists. eexists.
  split; [apply xy_ok; assumption|]. split; [|split; [apply xy_ok; assumption|]].
  - unfold point_eq, xy_val. cbn [fst snd]. split; field; lra.
  - unfold point_eq, xy_val. cbn [fst snd]. split; field; lra.
Qed.

Lemma xy_corners_witness :
  valid_box BOX
  /\ exists p q : Point,
       xy BOX (xmin BOX) (ymin BOX) = inr p /\ point_eq p (x0 BOX, y0 BOX + h BOX)
       /\ xy BOX (xmax BOX) (ymax BOX) = inr q
       /\ point_eq q (x0 BOX + w BOX, y0 BOX).
Proof.
  assert (Hv : valid_box BOX) by (repeat split).
  split; [exact Hv|]. exact (xy_corners BOX Hv).
Defined.

(** C10.  [xy] divides by [xmax - xmin] and by [ymax - ymin] without a guard:
    it raises [ZeroDivisionError] exactly when [xmax == xmin] or
    [ymax == ymin], and returns a point exactly when neither holds.  Nothing
    checks the invariant of the box: a box that violates it (here one with
    negative extents) is still mapped. *)
Theorem xy_division_unguarded (b : PlotBox) (x y : Q) :
  (xy b x y = inl ZeroDivisionError <-> xmax b == xmin b \/ ymax b == ymin b)
  /\ ((exists p : Point, xy b x y = inr p)
      <-> ~ xmax b == xmin b /\ ~ ymax b == ymin b)
  /\ (xmax b < xmin b -> ymax b < ymin b -> w b < 0 -> h b < 0 ->
      ~ valid_box b /\ exists p : Point, xy b x y = inr p).
Proof.
  assert (Hdec : (xmax b == xmin b \/ ymax b == ymin b)
                 \/ (~ xmax b == xmin b /\ ~ ymax b == ymin b)).
  { destruct (Qeq_dec (xmax b) (xmin b)); destruct (Qeq_dec (ymax b) (ymin b)); tauto. }
  split; [|split].
  - split; [|apply xy_raises].
    intros Hr. destruct Hdec as [Hz|[Hx Hy]]; [exact Hz|].
    rewrite xy_ok in Hr by assumption. discriminate.
  - split.
    + intros [p Hp]. destruct Hdec as [Hz|Hn]; [|exact Hn].
      rewrite xy_raises in Hp by exact Hz. discriminate.
    + intros [Hx Hy]. eexists. now apply xy_ok.
  - intros Hx Hy Hw Hh. split.
    + intros (Hv & _). lra.
    + eexists. apply xy_ok; lra.
Qed.

Lemma xy_division_unguarded_witness :
  (xmax (mkPlotBox 0 0 (-1) (-1) 2 1 2 1) < xmin (mkPlotBox 0 0 (-1) (-1) 2 1 2 1))
  /\ xy (mkPlotBox 0 0 1 1 3 3 0 1) 5 5 = inl ZeroDivisionError
  /\ exists p : Point, xy (mkPlotBox 0 0 (-1) (-1) 2 1 2 1) 5 5 = inr p.
Proof.
  assert (H1 : xmax (mkPlotBox 0 0 (-1) (-1) 2 1 2 1)
               < xmin (mkPlotBox 0 0 (-1) (-1) 2 1 2 1)) by reflexivity.
  split; [exact H1|]. split.
  - apply (proj1 (xy_division_unguarded (mkPlotBox 0 0 1 1 3 3 0 1) 5 5)).
    left. reflexivity.
  - apply (proj2 (proj2 (xy_division_unguarded (mkPlotBox 0 0 (-1) (-1) 2 1 2 1) 5 5)));
      reflexivity.
Defined.

(** ** Dashed strokes *)

Section Dashed.

Context {P : Platform}.

Lemma uniform_range (rng : Generator) (low high : Q) :
  low <= high ->
  low <= fst (uniform rng low high) <= high.
Proof.
  intros Hlh. unfold uniform. cbn [fst].
  pose proof (next_double_range (gen_seed rng) (gen_pos rng)) as [H0 H1].
  split; nra.
Qed.

Lemma uniform_range_strict (rng : Generator) (low high : Q) :
  low < high ->
  low <= fst (uniform rng low high) < high.
Proof.
  intros Hlh. unfold uniform. cbn [fst].
  pose proof (next_double_range (gen_seed rng) (gen_pos rng)) as [H0 H1].
  split; nra.
Qed.

Lemma stroke_line_dashed_eq (dwg : Drawing) (p0 p1 : Point) (style : StrokeStyle)
    (seed n : Z) (dash_base gap_base : Q) :
  (2 <= n)%Z ->
  let path :=
    stroke_path style
      (Some (format_f 1 (dash_length dash_base seed) ++ " "
             ++ format_f 1 (gap_length gap_base seed))%string)
      (Some (format_f 1 (dash_phase dash_base gap_base seed n)))
      (kernel_points p0 p1 style n seed 2) in
  stroke_line_dashed dwg p0 p1 style seed n dash_base gap_base
  = inr (path, (dwg ++ [path])%list).
Proof.
  intros Hn path. unfold stroke_line_dashed.
  cbv beta iota zeta delta [uniform gen_seed gen_pos default_rng].
  rewrite perturb_segment_eq by exact Hn. cbn [bind].
  fold (kernel_points p0 p1 style n seed 2).
  pose proof (kernel_points_length p0 p1 style n seed 2) as Hl.
  subst path.
  destruct (kernel_points p0 p1 style n seed 2) as [|p rest].
  - cbn [length] in Hl. lia.
  - rewrite push_points_cons. cbn [bind]. reflexivity.
Qed.

End Dashed.

(** C7 (amended: [n >= 2]).  A dashed stroke with [n >= 2] samples returns a
    path whose dash array is the dash length [dash_base * u1] and the gap
    length [gap_base * u2], where [u1] in [0.85, 1.15) and [u2] in
    [0.85, 1.20) are the first two uniform draws of the stream seeded with
    [seed]; whose dash offset is a uniform draw over [0, dash + gap] from the
    same stream, taken after the [2 * n] draws that perturb the geometry.  Two
    calls with the same arguments return the same path, with the same dash
    length, gap length and dash offset, whatever the drawings they write into
    hold and whatever the other noise streams of the platform hold. *)
Theorem dashed_stroke_pattern (P1 P2 : Platform) (dwg1 dwg2 : Drawing)
    (p0 p1 : Point) (style : StrokeStyle) (seed n : Z) (dash_base gap_base : Q) :
  (2 <= n)%Z ->
  (forall x, @math_sin P1 x = @math_sin P2 x) ->
  (forall x y, @math_hypot P1 x y = @math_hypot P2 x y) ->
  (forall k x, @format_f P1 k x = @format_f P2 k x) ->
  (forall k : nat, (Z.of_nat k < 2 * n + 3)%Z ->
     @next_double P1 seed k = @next_double P2 seed k) ->
  exists path : Path,
    @stroke_line_dashed P1 dwg1 p0 p1 style seed n dash_base gap_base
    = inr (path, (dwg1 ++ [path])%list)
    /\ @stroke_line_dashed P2 dwg2 p0 p1 style seed n dash_base gap_base
       = inr (path, (dwg2 ++ [path])%list)
    /\ stroke_dasharray path
       = Some (@format_f P1 1 (@dash_length P1 dash_base seed) ++ " "
               ++ @format_f P1 1 (@gap_length P1 gap_base seed))%string
    /\ stroke_dashoffset path
       = Some (@format_f P1 1 (@dash_phase P1 dash_base gap_base seed n))
    /\ commands path = @path_commands P1 (@kernel_points P1 p0 p1 style n seed 2)
    /\ @dash_length P1 dash_base seed
       = dash_base * fst (@uniform P1 (default_rng seed) 0.85 1.15)
    /\ @gap_length P1 gap_base seed
       = gap_base
         * fst (@uniform P1 (snd (@uniform P1 (default_rng seed) 0.85 1.15)) 0.85 1.20)
    /\ 0.85 <= @dash_jitter P1 seed < 1.15
    /\ 0.85 <= @gap_jitter P1 seed < 1.20
    /\ @dash_phase P1 dash_base gap_base seed n
       == (@dash_length P1 dash_base seed + @gap_length P1 gap_base seed)
          * @next_double P1 seed (2 + 2 * Z.to_nat n)
    /\ (0 <= dash_base -> 0 <= gap_base ->
        0 <= @dash_phase P1 dash_base gap_base seed n
          <= @dash_length P1 dash_base seed + @gap_length P1 gap_base seed).
Proof.
  intros Hn Hsin Hhyp Hfmt Hnd.
  eexists. split; [now apply (@stroke_line_dashed_eq P1)|].
  split.
  { rewrite (@stroke_line_dashed_eq P2) by exact Hn. cbn zeta.
    assert (Hkp : @kernel_points P2 p0 p1 style n seed 2
                  = @kernel_points P1 p0 p1 style n seed 2).
    { symmetry. apply kernel_points_agree; try assumption.
      intros k Hk. apply Hnd. lia. }
    assert (Hdash : @dash_length P2 dash_base seed = @dash_length P1 dash_base seed).
    { unfold dash_length, dash_jitter, uniform. cbn [fst gen_seed gen_pos].
      rewrite (Hnd 0%nat) by lia. reflexivity. }
    assert (Hgap : @gap_length P2 gap_base seed = @gap_length P1 gap_base seed).
    { unfold gap_length, gap_jitter, uniform. cbn [fst gen_seed gen_pos].
      rewrite (Hnd 1%nat) by lia. reflexivity. }
    assert (Hph : @dash_phase P2 dash_base gap_base seed n
                  = @dash_phase P1 dash_base gap_base seed n).
    { unfold dash_phase. rewrite Hdash, Hgap. unfold uniform.
      cbn [fst gen_seed gen_pos].
      rewrite (Hnd (2 + 2 * Z.to_nat n)%nat) by lia. reflexivity. }
    rewrite Hkp, Hdash, Hgap, Hph, <- !Hfmt.
    rewrite <- (stroke_path_agree P1 P2) by exact Hfmt. reflexivity. }
  assert (Hd : 0.85 <= @dash_jitter P1 seed < 1.15)
    by (apply uniform_range_strict; reflexivity).
  assert (Hg : 0.85 <= @gap_jitter P1 seed < 1.20)
    by (apply uniform_range_strict; reflexivity).
  repeat split; try reflexivity; try tauto.
  - unfold dash_phase, uniform. cbn [fst gen_seed gen_pos]. ring.
  - apply uniform_range. unfold dash_length, gap_length. nra.
  - apply uniform_range. unfold dash_length, gap_length. nra.
Qed.

(** C7, as stated, fails: a dashed-stroke call with one sample raises before
    any dash offset is drawn. *)
Lemma dashed_single_sample_raises :
  stroke_line_dashed (P := TestPlatform.platform) [] (0, 0) (0, 80) proj_style
    901 1 9 11
  = inl ZeroDivisionError.
Proof. reflexivity. Qed.

Lemma dashed_stroke_pattern_witness :
  (2 <= 50)%Z
  /\ exists path : Path,
       stroke_line_dashed (P := TestPlatform.platform) [] (0, 0) (0, 80) proj_style
         0 50 9 11 = inr (path, ([] ++ [path])%list)
       /\ stroke_line_dashed (P := TestPlatform.platform_other) [path] (0, 0) (0, 80)
            proj_style 0 50 9 11 = inr (path, ([path] ++ [path])%list)
       /\ 0.85 <= dash_jitter (P := TestPlatform.platform) 0 < 1.15
       /\ 0.85 <= gap_jitter (P := TestPlatform.platform) 0 < 1.20.
Proof.
  assert (Hn : (2 <= 50)%Z) by lia.
  split; [exact Hn|].
  assert (Hpin : forall d2 : Drawing,
            exists path : Path,
              stroke_line_dashed (P := TestPlatform.platform) [] (0, 0) (0, 80)
                proj_style 0 50 9 11 = inr (path, ([] ++ [path])%list)
              /\ stroke_line_dashed (P := TestPlatform.platform_other) d2 (0, 0) (0, 80)
                   proj_style 0 50 9 11 = inr (path, (d2 ++ [path])%list)
              /\ 0.85 <= dash_jitter (P := TestPlatform.platform) 0 < 1.15
              /\ 0.85 <= gap_jitter (P := TestPlatform.platform) 0 < 1.20).
  { intros d2.
    destruct (dashed_stroke_pattern TestPlatform.platform
                TestPlatform.platform_other [] d2 (0, 0) (0, 80) proj_style 0 50 9 11
                Hn ltac:(reflexivity) ltac:(reflexivity) ltac:(reflexivity)
                ltac:(reflexivity))
      as (path & Hrun & Hrun2 & _ & _ & _ & _ & _ & Hd & Hg & _).
    exists path. split; [exact Hrun|]. split; [exact Hrun2|].
    split; [exact Hd | exact Hg]. }
  destruct (Hpin []) as (path & Hrun & _).
  destruct (Hpin [path]) as (path' & Hrun' & Hrun2 & Hd & Hg).
  rewrite Hrun in Hrun'. injection Hrun' as Hp. subst path'.
  exists path. split; [exact Hrun|]. split; [exact Hrun2|].
  split; [exact Hd | exact Hg].
Defined.

(** ** Function sampling and the parabola figure *)

Lemma sample_func_eq (b : PlotBox) (g : Q -> Q) (n : Z) :
  (2 <= n)%Z -> ~ xmax b == xmin b -> ~ ymax b == ymin b ->
  sample_func b (fun x => ret (g x)) n = inr (map (func_sample b g n) (range n)).
Proof.
  intros Hn Hx Hy. unfold sample_func.
  rewrite (for_each_append (range n) _ (func_sample b g n)); [reflexivity|].
  intros i _ pts. rewrite truediv_ok by lia. cbn [bind ret].
  rewrite xy_ok by assumption. reflexivity.
Qed.

Lemma BOX_extents : ~ xmax BOX == xmin BOX /\ ~ ymax BOX == ymin BOX.
Proof. split; intros H0; vm_compute in H0; discriminate H0. Qed.

Section Parabola.

Context {P : Platform}.

(** C8.  The parabola scenario.  [sample_func] over [BOX] with [n = 110]
    returns 110 device points; drawing them as a polyline with seed 100 and 12
    samples per segment adds exactly 109 paths, each of 12 points; and the
    first point of the first stroke equals the image under the box of
    [(xmin, f(xmin))]. *)
Theorem parabola_scenario (dwg : Drawing) :
  exists (pts : list Point) (strokes : list Path),
    sample_func BOX parabola_f 110 = inr pts
    /\ len pts = 110%Z
    /\ draw_curve dwg pts data_style 100 12 = inr (dwg ++ strokes)%list
    /\ len strokes = 109%Z
    /\ Forall (fun path => len (commands path) = 12%Z) strokes
    /\ exists (a b : Point) (first_pts : list Point) (rng : Generator)
              (q : Point) (fx : Q) (p : Point),
         nth_error pts 0 = Some a /\ nth_error pts 1 = Some b
         /\ perturb_segment a b data_style (default_rng 100) 12 = inr (first_pts, rng)
         /\ len first_pts = 12%Z
         /\ nth_error strokes 0 = Some (stroke_path data_style None None first_pts)
         /\ nth_error first_pts 0 = Some q
         /\ parabola_f (xmin BOX) = inr fx
         /\ xy BOX (xmin BOX) fx = inr p
         /\ point_eq q p.
Proof.
  destruct BOX_extents as [Hx Hy].
  set (pts := map (func_sample BOX parabola_g 110) (range 110)).
  assert (Hlen : len pts = 110%Z).
  { unfold len, pts. rewrite length_map, range_length. reflexivity. }
  exists pts, (map (polyline_path pts data_style 100 12) (range (len pts - 1))).
  split; [apply (sample_func_eq BOX parabola_g 110); [lia | exact Hx | exact Hy]|].
  split; [exact Hlen|].
  split; [unfold draw_curve; apply stroke_polyline_eq; lia|].
  split; [unfold len at 1; rewrite length_map, range_length, Hlen; reflexivity|].
  split.
  { apply Forall_forall. intros path Hin. apply in_map_iff in Hin.
    destruct Hin as (i & <- & _). unfold polyline_path, stroke_path.
    cbn [commands]. unfold len.
    rewrite path_commands_length, kernel_points_length. reflexivity. }
  set (a := func_sample BOX parabola_g 110 0).
  set (b := func_sample BOX parabola_g 110 1).
  exists a, b, (kernel_points a b data_style 12 100 0),
         (mkGenerator 100 (0 + 2 * Z.to_nat 12)),
         (sample_point a b data_style 12 100 0 0),
         (parabola_g (xmin BOX)), (xy_val BOX (xmin BOX) (parabola_g (xmin BOX))).
  split; [reflexivity|]. split; [reflexivity|].
  split; [unfold default_rng; apply perturb_segment_eq; lia|].
  split; [unfold len; rewrite kernel_points_length; reflexivity|].
  split; [rewrite Hlen; reflexivity|].
  split; [reflexivity|]. split; [reflexivity|].
  split; [apply xy_ok; assumption|].
  assert (Hq : point_eq (sample_point a b data_style 12 100 0 0) a)
    by (apply sample_point_first; reflexivity).
  assert (Ha : point_eq a (xy_val BOX (xmin BOX) (parabola_g (xmin BOX))))
    by (split; vm_compute; reflexivity).
  destruct Hq as [Hq1 Hq2], Ha as [Ha1 Ha2].
  split; [now rewrite Hq1 | now rewrite Hq2].
Qed.

End Parabola.

(** ** Arrowheads and ticks *)

Section Axes.

Context {P : Platform}.

Lemma kink_point_total (p0 tip : Point) (k : Q) (rng : Generator) :
  exists (q : Point) (rng' : Generator), kink_point p0 tip k rng = inr (q, rng').
Proof.
  unfold kink_point. rewrite _unit_total. cbn [bind].
  destruct (unit_val _ _) as [ux uy].
  cbv beta iota zeta delta [uniform gen_seed gen_pos].
  eexists. eexists. reflexivity.
Qed.

(** A gestural arrowhead always returns, and adds four strokes. *)
Lemma arrow_head_gesture_total (tip direction : Point) (style : StrokeStyle)
    (seed : Z) (size open_angle_deg : Q) :
  exists paths : list Path,
    length paths = 4%nat
    /\ forall dwg : Drawing,
         arrow_head_gesture dwg tip direction style seed size open_angle_deg
         = inr (dwg ++ paths)%list.
Proof.
  unfold arrow_head_gesture. rewrite _unit_total. cbn [bind].
  destruct (unit_val _ _) as [dx dy].
  cbv beta iota zeta delta [uniform default_rng gen_seed gen_pos].
  destruct (rot dx dy _) as [lx ly]. destruct (rot dx dy _) as [rx ry].
  match goal with
  | |- context [kink_point ?a ?b ?c ?d] =>
      destruct (kink_point_total a b c d) as (pL1 & rng1 & E1)
  end.
  rewrite E1. cbn [bind].
  match goal with
  | |- context [kink_point ?a ?b ?c ?d] =>
      destruct (kink_point_total a b c d) as (pR1 & rng2 & E2)
  end.
  rewrite E2. cbn [bind].
  eexists. split; [|intros dwg].
  2: { rewrite stroke_line_eq by lia. cbn [bind].
       rewrite stroke_line_eq by lia. cbn [bind].
       rewrite stroke_line_eq by lia. cbn [bind].
       rewrite stroke_line_eq by lia. cbn [bind ret].
       rewrite <- !app_assoc. cbn [app]. reflexivity. }
  reflexivity.
Qed.

Lemma tick_fractions_eq (ticks : Z) :
  ticks <> 0%Z ->
  comprehension (fun i => truediv i ticks) (range2 1 ticks) = inr (tick_fractions ticks).
Proof.
  intros Ht. unfold tick_fractions.
  induction (range2 1 ticks) as [|i xs IH]; cbn [comprehension map]; [reflexivity|].
  rewrite truediv_ok by exact Ht. cbn [bind]. rewrite IH. reflexivity.
Qed.

Lemma ticks_on_axis_eq (dwg : Drawing) (axis_p0 axis_p1 : Point) (ts : list Q)
    (tick_len : Q) (style : StrokeStyle) (seed : Z) :
  ticks_on_axis dwg axis_p0 axis_p1 ts tick_len style seed
  = inr (dwg ++ map (tick_path axis_p0 axis_p1 tick_len style seed) (enumerate ts))%list.
Proof.
  unfold ticks_on_axis. rewrite _normal_total. cbn [bind].
  destruct (normal_val axis_p0 axis_p1) as [nx ny] eqn:En.
  apply for_each_append. intros [i t] _ s.
  unfold tick_path. rewrite En.
  destruct (tick_ends axis_p0 axis_p1 nx ny tick_len t) as [a b].
  rewrite stroke_line_eq by lia. reflexivity.
Qed.

Lemma enumerate_length {A : Type} (xs : list A) : length (enumerate xs) = length xs.
Proof.
  unfold enumerate. rewrite length_combine, length_map, length_seq.
  apply Nat.min_id.
Qed.





End Axes.

(** ** Axis ticks *)

Section AxisTicks.

Context {P : Platform}.




End AxisTicks.

Section AxisTicksClaim.

Context {P : Platform}.


End AxisTicksClaim.


(** * Further properties of the code *)

(** ** Unit vectors and normals *)

Section Normals.

Context {P : Platform}.

Lemma unit_val_zero (vx vy : Q) :
  vx == 0 -> vy == 0 -> fst (unit_val vx vy) == 0 /\ snd (unit_val vx vy) == 0.
Proof.
  intros Hx Hy. unfold unit_val.
  destruct (Qeq_bool (math_hypot vx vy) 0); cbn [fst snd].
  - split; reflexivity.
  - split; now apply Qdiv_zero_l.
Qed.

(** X1.  [_unit] and [_normal] never raise: the division is guarded by the
    test on the length.  The normal is the unit direction [(ux, uy)] of the
    segment turned by a quarter, [(- uy, ux)], which is orthogonal to it, and
    both are the zero vector when the two end points coincide. *)
Theorem normal_quarter_turn (p0 p1 : Point) :
  exists ux uy : Q,
    _unit (fst p1 - fst p0) (snd p1 - snd p0) = inr (ux, uy)
    /\ _normal p0 p1 = inr (- uy, ux)
    /\ dot (- uy, ux) (ux, uy) == 0
    /\ (point_eq p0 p1 -> ux == 0 /\ uy == 0).
Proof.
  pose proof (_unit_total (fst p1 - fst p0) (snd p1 - snd p0)) as Hu.
  pose proof (_normal_total p0 p1) as Hn. unfold normal_val in Hn.
  pose proof (unit_val_zero (fst p1 - fst p0) (snd p1 - snd p0)) as Hz.
  destruct (unit_val (fst p1 - fst p0) (snd p1 - snd p0)) as [ux uy].
  cbn [fst snd] in Hn, Hz.
  exists ux, uy. split; [exact Hu|]. split; [exact Hn|]. split.
  - unfold dot. cbn [fst snd]. ring.
  - intros [Hx Hy]. apply Hz; [rewrite Hx | rewrite Hy]; ring.
Qed.

End Normals.

(** ** The taper factor *)

Section TaperShape.

Context {P : Platform}.

Lemma taper_val_range (t taper : Q) :
  0 <= t <= 1 -> 0 <= taper_val t taper <= 1.
Proof.
  intros [Ht0 Ht1]. unfold taper_val.
  destruct (Qle_bool taper 0) eqn:E; [lra|].
  apply Qle_bool_false in E.
  assert (He : 0 <= py_min t (1 - t))
    by (destruct (py_min_cases t (1 - t)) as [[_ ->]|[_ ->]]; lra).
  assert (Hq : 0 <= py_min t (1 - t) / taper).
  { apply Qle_shift_div_l; [exact E|]. lra. }
  destruct (py_min_cases 1 (py_min t (1 - t) / taper)) as [[Hlt ->]|[Hle ->]]; lra.
Qed.

(** X2.  On the unit interval the taper factor stays in [0, 1], whatever the taper
    (also a negative one), and [_taper_k] does not raise. *)
Theorem taper_k_range (t taper : Q) :
  0 <= t <= 1 ->
  exists k : Q, _taper_k t taper = inr k /\ 0 <= k <= 1.
Proof.
  intros Ht. exists (taper_val t taper).
  split; [apply _taper_k_total | now apply taper_val_range].
Qed.

(** X3.  With [taper > 0] the factor is a symmetric ramp: it is [t / taper]
    where [t] is at most [taper] and at most [1 - t], [(1 - t) / taper] where
    [1 - t] is at most [taper] and at most [t], and 1 where both [t] and
    [1 - t] are at least [taper]. *)
Theorem taper_k_ramp (t taper : Q) :
  0 < taper ->
  exists k : Q,
    _taper_k t taper = inr k
    /\ (t <= taper -> t <= 1 - t -> k == t / taper)
    /\ (1 - t <= taper -> 1 - t <= t -> k == (1 - t) / taper)
    /\ (taper <= t -> taper <= 1 - t -> k == 1).
Proof.
  intros Hpos. exists (taper_val t taper).
  split; [apply _taper_k_total|].
  unfold taper_val.
  replace (Qle_bool taper 0) with false
    by (symmetry; apply Qle_bool_false; exact Hpos).
  assert (Hdiv : forall e : Q, e <= taper -> e / taper <= 1)
    by (intros e He; apply Qle_shift_div_r; [exact Hpos | lra]).
  assert (Hdiv' : forall e : Q, taper <= e -> 1 <= e / taper)
    by (intros e He; apply Qle_shift_div_l; [exact Hpos | lra]).
  assert (Hcong : forall a b : Q, a == b -> a / taper == b / taper)
    by (intros a b Hab; now rewrite Hab).
  split; [|split].
  - intros Ht Hhalf.
    assert (He : py_min t (1 - t) == t)
      by (destruct (py_min_cases t (1 - t)) as [[Hlt ->]|[Hle ->]]; lra).
    pose proof (Hdiv t Ht) as Hq. pose proof (Hcong _ _ He) as Hc.
    destruct (py_min_cases 1 (py_min t (1 - t) / taper)) as [[Hlt ->]|[Hle ->]];
      [exact Hc | lra].
  - intros Ht Hhalf.
    assert (He : py_min t (1 - t) == 1 - t)
      by (destruct (py_min_cases t (1 - t)) as [[Hlt ->]|[Hle ->]]; lra).
    pose proof (Hdiv (1 - t) Ht) as Hq. pose proof (Hcong _ _ He) as Hc.
    destruct (py_min_cases 1 (py_min t (1 - t) / taper)) as [[Hlt ->]|[Hle ->]];
      [exact Hc | lra].
  - intros Ht Ht'.
    assert (He : taper <= py_min t (1 - t))
      by (destruct (py_min_cases t (1 - t)) as [[Hlt ->]|[Hle ->]]; lra).
    pose proof (Hdiv' _ He) as Hq.
    destruct (py_min_cases 1 (py_min t (1 - t) / taper)) as [[Hlt ->]|[Hle ->]];
      lra.
Qed.

End TaperShape.

Lemma taper_k_range_witness :
  0 <= 1 # 4 <= 1
  /\ exists k : Q, _taper_k (1 # 4) 0.08 = inr k /\ 0 <= k <= 1.
Proof.
  assert (Ht : 0 <= 1 # 4 <= 1) by (split; discriminate).
  split; [exact Ht|]. exact (taper_k_range (1 # 4) 0.08 Ht).
Defined.

Lemma taper_k_ramp_witness :
  0 < 0.08
  /\ exists k : Q,
       _taper_k 0.04 0.08 = inr k /\ k == 0.04 / 0.08.
Proof.
  assert (Hpos : 0 < 0.08) by reflexivity.
  split; [exact Hpos|].
  destruct (taper_k_ramp 0.04 0.08 Hpos) as (k & Hk & Hramp & _).
  exists k. split; [exact Hk|]. apply Hramp; discriminate.
Defined.

(** ** Plain strokes: sample counts, the emitted path, the offsets *)

Section StrokeShape.

Context {P : Platform}.

(** X4.  [stroke_line] returns exactly when it is asked for at least two samples:
    with one sample the parametric position is [0 / 0] and it raises
    [ZeroDivisionError]; with none (or a negative count) the point list is
    empty and indexing it raises [IndexError]. *)
Theorem stroke_line_sample_count (dwg : Drawing) (p0 p1 : Point)
    (style : StrokeStyle) (seed n : Z) :
  ((n <= 0)%Z -> stroke_line dwg p0 p1 style seed n = inl IndexError)
  /\ (n = 1%Z -> stroke_line dwg p0 p1 style seed n = inl ZeroDivisionError)
  /\ ((exists r, stroke_line dwg p0 p1 style seed n = inr r) <-> (2 <= n)%Z).
Proof.
  split; [apply stroke_line_none|]. split; [intros ->; apply stroke_line_one|].
  split.
  - intros [r Hr].
    destruct (Z_le_gt_dec n 0) as [H0|H0];
      [rewrite stroke_line_none in Hr by exact H0; discriminate|].
    destruct (Z.eq_dec n 1) as [->|H1];
      [rewrite stroke_line_one in Hr; discriminate|].
    lia.
  - intros Hn. eexists. now apply stroke_line_eq.
Qed.

(** X5.  For [n >= 2] the path that [stroke_line] returns has [n] commands, one
    move followed by [n - 1] lines, carries the style's colour, width, cap and
    join, no fill and no dash attributes; the drawing keeps everything it held
    and gains that path at its end. *)
Theorem stroke_line_path (dwg : Drawing) (p0 p1 : Point) (style : StrokeStyle)
    (seed n : Z) :
  (2 <= n)%Z ->
  exists (path : Path) (first : Point) (rest : list Point),
    stroke_line dwg p0 p1 style seed n = inr (path, (dwg ++ [path])%list)
    /\ commands path = move_to first :: map line_to rest
    /\ len (commands path) = n
    /\ fill path = "none"%string
    /\ stroke path = color style
    /\ stroke_width path = width style
    /\ stroke_linecap path = linecap style
    /\ stroke_linejoin path = linejoin style
    /\ stroke_dasharray path = None
    /\ stroke_dashoffset path = None.
Proof.
  intros Hn.
  pose proof (kernel_points_length p0 p1 style n seed 0) as Hl.
  pose proof (stroke_line_eq dwg p0 p1 style seed n Hn) as Hrun.
  destruct (kernel_points p0 p1 style n seed 0) as [|first rest] eqn:Ek.
  - cbn [length] in Hl. lia.
  - exists (stroke_path style None None (first :: rest)), first, rest.
    split; [exact Hrun|]. split; [reflexivity|].
    split; [|repeat split].
    unfold len. cbn [stroke_path commands path_commands length].
    rewrite length_map. cbn [length] in Hl. lia.
Qed.

Lemma kernel_points_nth (p0 p1 : Point) (style : StrokeStyle) (n seed : Z)
    (pos j : nat) (q : Point) :
  nth_error (kernel_points p0 p1 style n seed pos) j = Some q ->
  (j < Z.to_nat n)%nat /\ q = sample_point p0 p1 style n seed pos j.
Proof.
  unfold kernel_points. rewrite nth_error_map, nth_error_seq.
  destruct (j <? Z.to_nat n)%nat eqn:E; cbn [option_map]; [|discriminate].
  intros [= <-]. split; [now apply Nat.ltb_lt | reflexivity].
Qed.


Lemma sample_t_unit (n : Z) (j : nat) :
  (2 <= n)%Z -> (j < Z.to_nat n)%nat -> 0 <= sample_t n (Z.of_nat j) <= 1.
Proof.
  intros Hn Hj. unfold sample_t.
  assert (Hd : 0 < inject_Z (n - 1))
    by (change (inject_Z 0 < inject_Z (n - 1)); rewrite <- Zlt_Qlt; lia).
  assert (H0 : 0 <= inject_Z (Z.of_nat j))
    by (change (inject_Z 0 <= inject_Z (Z.of_nat j)); rewrite <- Zle_Qle; lia).
  assert (H1 : inject_Z (Z.of_nat j) <= inject_Z (n - 1))
    by (rewrite <- Zle_Qle; lia).
  split.
  - apply Qle_shift_div_l; [exact Hd | lra].
  - apply Qle_shift_div_r; [exact Hd | lra].
Qed.

Lemma a2_of_range (rng : Generator) : -0.10 <= a2_of rng <= 0.10.
Proof.
  unfold a2_of, uniform. cbn [fst snd gen_seed gen_pos].
  pose proof (next_double_range (gen_seed rng) (S (gen_pos rng))) as [H0 H1].
  split; lra.
Qed.

Lemma drift_bound (waves t phase a2 : Q) :
  (forall x : Q, -1 <= math_sin x <= 1) ->
  -0.10 <= a2 <= 0.10 ->
  -1.1 <= drift waves t phase a2 <= 1.1.
Proof.
  intros Hsin Ha. unfold drift.
  pose proof (Hsin (2 * math_pi * waves * t + phase)) as [H1 H2].
  pose proof (Hsin (2 * math_pi * (2 * waves) * t + 0.7 * phase)) as [H3 H4].
  set (s1 := math_sin (2 * math_pi * waves * t + phase)) in *.
  set (s2 := math_sin (2 * math_pi * (2 * waves) * t + 0.7 * phase)) in *.
  destruct Ha as [Ha1 Ha2]. split; nra.
Qed.

Lemma sample_off_bound (style : StrokeStyle) (n seed : Z) (pos j : nat) :
  (forall x : Q, -1 <= math_sin x <= 1) ->
  0 <= amp style -> (2 <= n)%Z -> (j < Z.to_nat n)%nat ->
  - (1.1 * amp style) <= sample_off style n seed pos j <= 1.1 * amp style.
Proof.
  intros Hsin Hamp Hn Hj. unfold sample_off.
  pose proof (taper_val_range _ (taper style) (sample_t_unit n j Hn Hj)) as [Hk0 Hk1].
  pose proof (drift_bound (waves style) (sample_t n (Z.of_nat j))
                (phase_of (mkGenerator seed (pos + 2 * j)))
                (a2_of (mkGenerator seed (pos + 2 * j))) Hsin
                (a2_of_range _)) as [Hd0 Hd1].
  set (k := taper_val (sample_t n (Z.of_nat j)) (taper style)) in *.
  set (d := drift _ _ _ _) in *.
  assert (Hak0 : 0 <= amp style * k) by nra.
  assert (Hak1 : amp style * k <= amp style) by nra.
  split; nra.
Qed.

(** X7.  If the sine stays in [-1, 1] and the amplitude is not negative, every
    sample of a stroke lies on the normal through its base point, at an offset
    of at most [1.1 * amp]: the full sine plus the second harmonic of weight at
    most 0.1. *)
Theorem kernel_offset_bounded (p0 p1 : Point) (style : StrokeStyle) (seed n : Z) :
  (forall x : Q, -1 <= math_sin x <= 1) ->
  0 <= amp style ->
  (2 <= n)%Z ->
  exists (nrm : Q * Q) (pts : list Point) (rng : Generator),
    _normal p0 p1 = inr nrm
    /\ perturb_segment p0 p1 style (default_rng seed) n = inr (pts, rng)
    /\ forall (j : nat) (q : Point),
         nth_error pts j = Some q ->
         exists off : Q,
           q = displaced p0 p1 (fst nrm) (snd nrm) (sample_t n (Z.of_nat j)) off
           /\ - (1.1 * amp style) <= off <= 1.1 * amp style.
Proof.
  intros Hsin Hamp Hn.
  exists (normal_val p0 p1), (kernel_points p0 p1 style n seed 0),
         (mkGenerator seed (0 + 2 * Z.to_nat n)).
  split; [apply _normal_total|].
  split; [unfold default_rng; now apply perturb_segment_eq|].
  intros j q Hq. apply kernel_points_nth in Hq. destruct Hq as [Hj ->].
  exists (sample_off style n seed 0 j). split.
  - unfold sample_point. destruct (normal_val p0 p1). reflexivity.
  - now apply sample_off_bound.
Qed.

(** X8.  With zero amplitude the stroke is the straight segment: every sample is
    the linear interpolation of the end points at [t = j / (n - 1)]. *)
Theorem zero_amplitude_straight (p0 p1 : Point) (style : StrokeStyle) (seed n : Z) :
  amp style == 0 ->
  (2 <= n)%Z ->
  exists (pts : list Point) (rng : Generator),
    perturb_segment p0 p1 style (default_rng seed) n = inr (pts, rng)
    /\ len pts = n
    /\ forall (j : nat) (q : Point),
         nth_error pts j = Some q ->
         point_eq q (base_point p0 p1 (sample_t n (Z.of_nat j))).
Proof.
  intros Hamp Hn.
  exists (kernel_points p0 p1 style n seed 0), (mkGenerator seed (0 + 2 * Z.to_nat n)).
  split; [unfold default_rng; now apply perturb_segment_eq|].
  split; [unfold len; rewrite kernel_points_length; lia|].
  intros j q Hq. apply kernel_points_nth in Hq. destruct Hq as [_ ->].
  unfold sample_point. destruct (normal_val p0 p1) as [nx ny].
  apply displaced_no_offset. unfold sample_off. rewrite Hamp. ring.
Qed.

End StrokeShape.

Lemma test_sine_bounded (x : Q) :
  -1 <= math_sin (Platform := TestPlatform.platform) x <= 1.
Proof.
  cbn [math_sin TestPlatform.platform]. unfold TestPlatform.sin_q.
  assert (Hsq : forall y : Q, 0 <= y * y)
    by (intros y; destruct (Qlt_le_dec y 0); nra).
  pose proof (Hsq x) as Hx.
  pose proof (Hsq (x + 1)) as Hp. pose proof (Hsq (x - 1)) as Hm.
  assert (Hd : 0 < 1 + x * x) by lra.
  split.
  - apply Qle_shift_div_l; [exact Hd | lra].
  - apply Qle_shift_div_r; [exact Hd | lra].
Qed.

Lemma stroke_line_path_witness :
  (2 <= 3)%Z
  /\ exists path : Path,
       stroke_line (P := TestPlatform.platform) [] (0, 0) (100, 0) default_style 0 3
       = inr (path, ([] ++ [path])%list)
       /\ len (commands path) = 3%Z.
Proof.
  assert (Hn : (2 <= 3)%Z) by lia.
  split; [exact Hn|].
  destruct (stroke_line_path (P := TestPlatform.platform) [] (0, 0) (100, 0)
              default_style 0 3 Hn) as (path & first & rest & Hrun & _ & Hlen & _).
  exists path. split; [exact Hrun | exact Hlen].
Defined.


Lemma kernel_offset_bounded_witness :
  (0 <= amp default_style /\ (2 <= 3)%Z)
  /\ exists (nrm : Q * Q) (pts : list Point) (rng : Generator),
       _normal (P := TestPlatform.platform) (0, 0) (100, 0) = inr nrm
       /\ perturb_segment (P := TestPlatform.platform) (0, 0) (100, 0) default_style
            (default_rng 0) 3 = inr (pts, rng).
Proof.
  assert (Ha : 0 <= amp default_style) by discriminate.
  assert (Hn : (2 <= 3)%Z) by lia.
  split; [split; assumption|].
  destruct (kernel_offset_bounded (P := TestPlatform.platform) (0, 0) (100, 0)
              default_style 0 3 test_sine_bounded Ha Hn)
    as (nrm & pts & rng & Hnrm & Hrun & _).
  exists nrm, pts, rng. split; [exact Hnrm | exact Hrun].
Defined.

Lemma zero_amplitude_straight_witness :
  (amp (mkStrokeStyle 2.2 0 1.2 0.08 "#111" "round" "round") == 0 /\ (2 <= 3)%Z)
  /\ exists (pts : list Point) (rng : Generator),
       perturb_segment (P := TestPlatform.platform) (0, 0) (100, 40)
         (mkStrokeStyle 2.2 0 1.2 0.08 "#111" "round" "round")
         (default_rng 0) 3 = inr (pts, rng)
       /\ len pts = 3%Z.
Proof.
  assert (Ha : amp (mkStrokeStyle 2.2 0 1.2 0.08 "#111" "round" "round") == 0)
    by reflexivity.
  assert (Hn : (2 <= 3)%Z) by lia.
  split; [split; assumption|].
  destruct (zero_amplitude_straight (P := TestPlatform.platform) (0, 0) (100, 40)
              (mkStrokeStyle 2.2 0 1.2 0.08 "#111" "round" "round") 0 3 Ha Hn)
    as (pts & rng & Hrun & Hlen & _).
  exists pts, rng. split; [exact Hrun | exact Hlen].
Defined.

(** ** Polylines: the ends of the strokes and bad sample counts *)

Lemma point_eq_trans (p q r : Point) : point_eq p q -> point_eq q r -> point_eq p r.
Proof.
  intros [H1 H2] [H3 H4]. split; [now rewrite H1 | now rewrite H2].
Qed.

Lemma range_cons (n : Z) : (1 <= n)%Z -> exists tl, range n = 0%Z :: tl.
Proof.
  intros Hn. rewrite range_to_nat by lia.
  destruct (Z.to_nat n) as [|m] eqn:E; [lia|].
  cbn [seq map]. eexists. reflexivity.
Qed.

Section PolylineCorners.

Context {P : Platform}.

Lemma kernel_points_ends (a b : Point) (style : StrokeStyle) (n seed : Z) :
  0 < taper style -> (2 <= n)%Z ->
  exists first last : Point,
    nth_error (kernel_points a b style n seed 0) 0 = Some first
    /\ nth_error (kernel_points a b style n seed 0) (Z.to_nat (n - 1)) = Some last
    /\ point_eq first a /\ point_eq last (base_point a b 1).
Proof.
  intros Hpos Hn.
  exists (sample_point a b style n seed 0 0),
         (sample_point a b style n seed 0 (Z.to_nat (n - 1))).
  unfold kernel_points. rewrite !nth_error_map, !nth_error_seq.
  replace (0 <? Z.to_nat n)%nat with true by (symmetry; apply Nat.ltb_lt; lia).
  replace (Z.to_nat (n - 1) <? Z.to_nat n)%nat with true
    by (symmetry; apply Nat.ltb_lt; lia).
  cbn [option_map Nat.add].
  split; [reflexivity|]. split; [reflexivity|].
  split; [now apply sample_point_first|].
  unfold sample_point. destruct (normal_val a b) as [nx ny].
  pose proof (sample_off_last style n seed 0 Hn Hpos) as Hoff.
  pose proof (sample_t_last n Hn) as Ht. rewrite Z2Nat.id by lia.
  unfold displaced, base_point, point_eq. cbn [fst snd].
  split; rewrite Hoff, Ht; ring.
Qed.

(** X9.  With [taper > 0], at least two points and at least two samples per
    segment, the stroke of segment [i] of a polyline has [n_per_seg] points,
    its first sample is point [i], and its last sample is the undisplaced end
    of the segment, [a + (b - a) * 1] for the segment from [a] to [b]. *)
Theorem polyline_stroke_ends (dwg : Drawing) (points : list Point)
    (style : StrokeStyle) (seed n_per_seg : Z) :
  0 < taper style ->
  (2 <= len points)%Z ->
  (2 <= n_per_seg)%Z ->
  exists strokes : list (list Point),
    stroke_polyline dwg points style seed n_per_seg
    = inr (dwg ++ map (stroke_path style None None) strokes)%list
    /\ len strokes = (len points - 1)%Z
    /\ forall (i : nat) (a b : Point),
         nth_error points i = Some a ->
         nth_error points (S i) = Some b ->
         exists (pts : list Point) (first last : Point),
           nth_error strokes i = Some pts
           /\ len pts = n_per_seg
           /\ nth_error pts 0 = Some first
           /\ nth_error pts (Z.to_nat (n_per_seg - 1)) = Some last
           /\ point_eq first a /\ point_eq last (base_point a b 1).
Proof.
  intros Hpos Hk Hn.
  set (seg := fun i : Z =>
         kernel_points (nth (Z.to_nat i) points (0, 0))
           (nth (Z.to_nat (i + 1)) points (0, 0)) style n_per_seg (seed + i * 97) 0).
  exists (map seg (range (len points - 1))).
  split; [|split].
  - rewrite stroke_polyline_eq by assumption. rewrite map_map. reflexivity.
  - unfold len at 1. rewrite length_map, range_length. lia.
  - intros i a b Ha Hb.
    assert (Hi : (S i < length points)%nat) by (apply nth_error_Some; congruence).
    destruct (kernel_points_ends a b style n_per_seg (seed + Z.of_nat i * 97) Hpos Hn)
      as (first & last & Hf & Hl & Hfa & Hlb).
    exists (kernel_points a b style n_per_seg (seed + Z.of_nat i * 97) 0), first, last.
    split.
    { rewrite range_to_nat by (unfold len; lia).
      rewrite nth_error_map, nth_error_map, nth_error_seq.
      replace (i <? Z.to_nat (len points - 1))%nat with true
        by (symmetry; apply Nat.ltb_lt; unfold len; lia).
      cbn [option_map Nat.add]. unfold seg.
      replace (Z.to_nat (Z.of_nat i + 1)) with (S i) by lia.
      rewrite Nat2Z.id.
      rewrite (nth_error_nth _ _ _ Ha), (nth_error_nth _ _ _ Hb). reflexivity. }
    split; [unfold len; rewrite kernel_points_length; lia|].
    split; [exact Hf|]. split; [exact Hl|]. split; [exact Hfa | exact Hlb].
Qed.

Lemma stroke_polyline_first_raises (dwg : Drawing) (points : list Point)
    (style : StrokeStyle) (seed n_per_seg : Z) (e : exn) :
  (2 <= len points)%Z ->
  (forall d a b s, stroke_line d a b style s n_per_seg = inl e) ->
  stroke_polyline dwg points style seed n_per_seg = inl e.
Proof.
  intros Hk He. unfold stroke_polyline.
  replace (len points <? 2)%Z with false by (symmetry; apply Z.ltb_ge; lia).
  destruct (range_cons (len points - 1) ltac:(lia)) as [tl ->].
  cbn [for_each].
  rewrite (getitem_nth points 0 (0, 0)) by lia.
  rewrite (getitem_nth points (0 + 1) (0, 0)) by lia. cbn [bind].
  rewrite He. reflexivity.
Qed.

(** X10.  A polyline over at least two points needs at least two samples per
    segment: with one it raises [ZeroDivisionError], with none [IndexError],
    at its first segment. *)
Theorem polyline_bad_sample_count (dwg : Drawing) (points : list Point)
    (style : StrokeStyle) (seed n_per_seg : Z) :
  (2 <= len points)%Z ->
  (n_per_seg = 1%Z ->
   stroke_polyline dwg points style seed n_per_seg = inl ZeroDivisionError)
  /\ ((n_per_seg <= 0)%Z ->
      stroke_polyline dwg points style seed n_per_seg = inl IndexError).
Proof.
  intros Hk. split.
  - intros ->. apply stroke_polyline_first_raises; [exact Hk|].
    intros. apply stroke_line_one.
  - intros Hn. apply stroke_polyline_first_raises; [exact Hk|].
    intros. now apply stroke_line_none.
Qed.

End PolylineCorners.

Lemma polyline_stroke_ends_witness :
  (0 < taper default_style /\ (2 <= len [(0, 0); (10, 0); (10, 10)])%Z /\ (2 <= 30)%Z)
  /\ exists strokes : list (list Point),
       stroke_polyline (P := TestPlatform.platform) [] [(0, 0); (10, 0); (10, 10)]
         default_style 5 30
       = inr ([] ++ map (stroke_path (P := TestPlatform.platform) default_style
                           None None) strokes)%list
       /\ len strokes = 2%Z.
Proof.
  assert (Ht : 0 < taper default_style) by reflexivity.
  assert (Hk : (2 <= len [(0, 0); (10, 0); (10, 10)])%Z) by (cbn; lia).
  assert (Hn : (2 <= 30)%Z) by lia.
  split; [split; [exact Ht | split; [exact Hk | exact Hn]]|].
  destruct (polyline_stroke_ends (P := TestPlatform.platform) []
              [(0, 0); (10, 0); (10, 10)] default_style 5 30 Ht Hk Hn)
    as (strokes & Hrun & Hlen & _).
  exists strokes. split; [exact Hrun | exact Hlen].
Defined.

Lemma polyline_bad_sample_count_witness :
  (2 <= len [(0, 0); (10, 0)])%Z
  /\ stroke_polyline (P := TestPlatform.platform) [] [(0, 0); (10, 0)]
       default_style 5 1 = inl ZeroDivisionError.
Proof.
  assert (Hk : (2 <= len [(0, 0); (10, 0)])%Z) by (cbn; lia).
  split; [exact Hk|].
  exact (proj1 (polyline_bad_sample_count (P := TestPlatform.platform) []
                  [(0, 0); (10, 0)] default_style 5 1 Hk) eq_refl).
Defined.

(** ** Ticks and arrowheads *)

Section TicksAndArrows.

Context {P : Platform}.

Lemma kernel_points_degenerate (a b c : Point) (style : StrokeStyle) (n seed : Z) :
  point_eq a b -> point_eq a c ->
  Forall (fun q => point_eq q c) (kernel_points a b style n seed 0).
Proof.
  intros Hab Hac. unfold kernel_points. apply Forall_forall. intros q Hq.
  apply in_map_iff in Hq. destruct Hq as (j & <- & _).
  apply (point_eq_trans _ a); [now apply sample_point_degenerate | exact Hac].
Qed.

Lemma kink_point_draws (p0 tip : Point) (k : Q) (rng : Generator) :
  exists q : Point,
    kink_point p0 tip k rng
    = inr (q, mkGenerator (gen_seed rng) (S (S (gen_pos rng)))).
Proof.
  unfold kink_point. rewrite _unit_total. cbn [bind].
  destruct (unit_val _ _) as [ux uy].
  cbv beta iota zeta delta [uniform gen_seed gen_pos].
  eexists. reflexivity.
Qed.

(** X11.  [ticks_on_axis] never raises.  It adds one stroke of 12 points per tick
    position, in order, and nothing for an empty list.  On an axis of zero
    length every tick collapses to the axis point. *)
Theorem ticks_on_axis_strokes (dwg : Drawing) (axis_p0 axis_p1 : Point)
    (tick_positions_t : list Q) (tick_len : Q) (style : StrokeStyle) (seed : Z) :
  exists strokes : list (list Point),
    ticks_on_axis dwg axis_p0 axis_p1 tick_positions_t tick_len style seed
    = inr (dwg ++ map (stroke_path style None None) strokes)%list
    /\ length strokes = length tick_positions_t
    /\ Forall (fun pts => len pts = 12%Z) strokes
    /\ (point_eq axis_p0 axis_p1 ->
        Forall (Forall (fun q => point_eq q axis_p0)) strokes).
Proof.
  set (pts_of := fun it : Z * Q =>
         let '(i, t) := it in
         let '(nx, ny) := normal_val axis_p0 axis_p1 in
         let '(a, b) := tick_ends axis_p0 axis_p1 nx ny tick_len t in
         kernel_points a b style 12 (seed + i * 31) 0).
  exists (map pts_of (enumerate tick_positions_t)).
  split; [|split; [|split]].
  - rewrite ticks_on_axis_eq, map_map. do 2 f_equal.
    apply map_ext. intros [i t]. unfold tick_path, pts_of.
    destruct (normal_val axis_p0 axis_p1) as [nx ny].
    destruct (tick_ends axis_p0 axis_p1 nx ny tick_len t). reflexivity.
  - now rewrite length_map, enumerate_length.
  - apply Forall_forall. intros pts Hin. apply in_map_iff in Hin.
    destruct Hin as ([i t] & <- & _). unfold pts_of.
    destruct (normal_val axis_p0 axis_p1) as [nx ny].
    destruct (tick_ends axis_p0 axis_p1 nx ny tick_len t).
    unfold len. now rewrite kernel_points_length.
  - intros Heq. apply Forall_forall. intros pts Hin. apply in_map_iff in Hin.
    destruct Hin as ([i t] & <- & _). unfold pts_of.
    destruct (normal_val_degenerate axis_p0 axis_p1 Heq) as [Hnx Hny].
    destruct (normal_val axis_p0 axis_p1) as [nx ny]. cbn [fst snd] in Hnx, Hny.
    destruct Heq as [Hx Hy].
    unfold tick_ends.
    apply kernel_points_degenerate; unfold point_eq; cbn [fst snd];
      split; rewrite ?Hnx, ?Hny, <- ?Hx, <- ?Hy; field.
Qed.

(** X12.  A gestural arrowhead never raises, whatever the direction (also the
    zero vector).  After four draws for the wing angles and sizes, the kink of
    the left wing takes draws 4 and 5 of the stream seeded with [seed] and the
    kink of the right wing draws 6 and 7.  Four strokes are added, in this
    order: left base to left kink (14 points, seed [seed + 111]), left kink to
    tip (10 points, [seed + 112]), right base to right kink (14 points,
    [seed + 211]), right kink to tip (10 points, [seed + 212]). *)
Theorem arrow_head_gesture_strokes (tip direction : Point) (style : StrokeStyle)
    (seed : Z) (size open_angle_deg : Q) :
  exists (pL0 pL1 pR0 pR1 : Point) (l1 l2 r1 r2 : list Point),
    kink_point pL0 tip 2.0 (mkGenerator seed 4) = inr (pL1, mkGenerator seed 6)
    /\ kink_point pR0 tip 2.5 (mkGenerator seed 6) = inr (pR1, mkGenerator seed 8)
    /\ (forall dwg : Drawing,
          arrow_head_gesture dwg tip direction style seed size open_angle_deg
          = inr (dwg ++ map (stroke_path style None None) [l1; l2; r1; r2])%list)
    /\ (forall d : Drawing,
          stroke_line d pL0 pL1 style (seed + 111) 14
          = inr (stroke_path style None None l1,
                 (d ++ [stroke_path style None None l1])%list))
    /\ (forall d : Drawing,
          stroke_line d pL1 tip style (seed + 112) 10
          = inr (stroke_path style None None l2,
                 (d ++ [stroke_path style None None l2])%list))
    /\ (forall d : Drawing,
          stroke_line d pR0 pR1 style (seed + 211) 14
          = inr (stroke_path style None None r1,
                 (d ++ [stroke_path style None None r1])%list))
    /\ (forall d : Drawing,
          stroke_line d pR1 tip style (seed + 212) 10
          = inr (stroke_path style None None r2,
                 (d ++ [stroke_path style None None r2])%list))
    /\ len l1 = 14%Z /\ len l2 = 10%Z /\ len r1 = 14%Z /\ len r2 = 10%Z.
Proof.
  unfold arrow_head_gesture. rewrite _unit_total. cbn [bind].
  destruct (unit_val _ _) as [dx dy].
  cbv beta iota zeta delta [uniform default_rng gen_seed gen_pos].
  destruct (rot dx dy _) as [lx ly]. destruct (rot dx dy _) as [rx ry].
  match goal with
  | |- context [kink_point ?a ?b ?c ?d] =>
      destruct (kink_point_draws a b c d) as (pL1 & E1);
      set (pL0 := a) in *
  end.
  cbn [gen_seed gen_pos] in E1. rewrite E1. cbn [bind].
  match goal with
  | |- context [kink_point ?a ?b ?c ?d] =>
      destruct (kink_point_draws a b c d) as (pR1 & E2);
      set (pR0 := a) in *
  end.
  cbn [gen_seed gen_pos] in E2. rewrite E2. cbn [bind].
  exists pL0, pL1, pR0, pR1,
         (kernel_points pL0 pL1 style 14 (seed + 111) 0),
         (kernel_points pL1 tip style 10 (seed + 112) 0),
         (kernel_points pR0 pR1 style 14 (seed + 211) 0),
         (kernel_points pR1 tip style 10 (seed + 212) 0).
  split; [exact E1|]. split; [exact E2|].
  split.
  { intros dwg.
    rewrite stroke_line_eq by lia. cbn [bind].
    rewrite stroke_line_eq by lia. cbn [bind].
    rewrite stroke_line_eq by lia. cbn [bind].
    rewrite stroke_line_eq by lia. cbn [bind ret map].
    rewrite <- !app_assoc. reflexivity. }
  split; [intros d; apply stroke_line_eq; lia|].
  split; [intros d; apply stroke_line_eq; lia|].
  split; [intros d; apply stroke_line_eq; lia|].
  split; [intros d; apply stroke_line_eq; lia|].
  unfold len. rewrite !kernel_points_length.
  split; [reflexivity|]. split; [reflexivity|]. split; reflexivity.
Qed.

(** X13.  An open arrowhead never raises.  It adds two strokes of 18 points,
    the left wing (seed [seed + 101]) and then the right wing
    ([seed + 202]), each drawn by [stroke_line] from the wing base to the tip.
    For the zero direction both wing bases are the tip and every point of both
    strokes is the tip. *)
Theorem arrow_head_open_strokes (tip direction : Point) (style : StrokeStyle)
    (seed : Z) (size open_angle_deg : Q) :
  exists (pL pR : Point) (l r : list Point),
    (forall dwg : Drawing,
       arrow_head_open dwg tip direction style seed size open_angle_deg
       = inr (dwg ++ map (stroke_path style None None) [l; r])%list)
    /\ (forall d : Drawing,
          stroke_line d pL tip style (seed + 101) 18
          = inr (stroke_path style None None l,
                 (d ++ [stroke_path style None None l])%list))
    /\ (forall d : Drawing,
          stroke_line d pR tip style (seed + 202) 18
          = inr (stroke_path style None None r,
                 (d ++ [stroke_path style None None r])%list))
    /\ len l = 18%Z /\ len r = 18%Z
    /\ (fst direction == 0 -> snd direction == 0 ->
        point_eq pL tip /\ point_eq pR tip
        /\ Forall (fun q => point_eq q tip) l
        /\ Forall (fun q => point_eq q tip) r).
Proof.
  unfold arrow_head_open. rewrite _unit_total. cbn [bind].
  pose proof (unit_val_zero (fst direction) (snd direction)) as Hzero.
  destruct (unit_val _ _) as [dx dy]. cbn [fst snd] in Hzero.
  cbv beta iota zeta delta [uniform default_rng gen_seed gen_pos].
  match goal with
  | |- context [stroke_line _ ?a tip style (seed + 101) 18] => set (pL := a) in *
  end.
  match goal with
  | |- context [stroke_line _ ?a tip style (seed + 202) 18] => set (pR := a) in *
  end.
  exists pL, pR, (kernel_points pL tip style 18 (seed + 101) 0),
         (kernel_points pR tip style 18 (seed + 202) 0).
  split.
  { intros dwg.
    rewrite stroke_line_eq by lia. cbn [bind].
    rewrite stroke_line_eq by lia. cbn [bind ret map].
    rewrite <- !app_assoc. reflexivity. }
  split; [intros d; apply stroke_line_eq; lia|].
  split; [intros d; apply stroke_line_eq; lia|].
  split; [unfold len; rewrite kernel_points_length; reflexivity|].
  split; [unfold len; rewrite kernel_points_length; reflexivity|].
  intros Hdx Hdy. destruct (Hzero Hdx Hdy) as [Hx Hy].
  assert (HL : point_eq pL tip)
    by (subst pL; unfold point_eq; cbn [fst snd]; split; rewrite Hx, Hy; ring).
  assert (HR : point_eq pR tip)
    by (subst pR; unfold point_eq; cbn [fst snd]; split; rewrite Hx, Hy; ring).
  split; [exact HL|]. split; [exact HR|].
  split; apply kernel_points_degenerate; assumption.
Qed.

End TicksAndArrows.

(** ** The coordinate mapping: window to device box *)

Lemma Qdiv_le_compat (a b d : Q) : 0 < d -> a <= b -> a / d <= b / d.
Proof.
  intros Hd Hab. unfold Qdiv. apply Qmult_le_compat_r; [exact Hab|].
  apply Qlt_le_weak. now apply Qinv_lt_0_compat.
Qed.

Lemma Qdiv_unit (a d : Q) : 0 < d -> 0 <= a <= d -> 0 <= a / d <= 1.
Proof.
  intros Hd [H0 H1]. split.
  - apply Qle_shift_div_l; [exact Hd | lra].
  - apply Qle_shift_div_r; [exact Hd | lra].
Qed.

(** X14.  A data point inside the window of a valid box is mapped inside the device
    rectangle [[x0, x0 + w] x [y0, y0 + h]]. *)
Theorem xy_inside_box (b : PlotBox) (x y : Q) :
  valid_box b ->
  xmin b <= x <= xmax b ->
  ymin b <= y <= ymax b ->
  exists p : Point,
    xy b x y = inr p
    /\ x0 b <= fst p <= x0 b + w b
    /\ y0 b <= snd p <= y0 b + h b.
Proof.
  intros (Hx & Hy & Hw & Hh) Hxr Hyr.
  exists (xy_val b x y). split; [apply xy_ok; lra|].
  unfold xy_val. cbn [fst snd].
  pose proof (Qdiv_unit (x - xmin b) (xmax b - xmin b) ltac:(lra) ltac:(lra)) as [Hu0 Hu1].
  pose proof (Qdiv_unit (y - ymin b) (ymax b - ymin b) ltac:(lra) ltac:(lra)) as [Hv0 Hv1].
  set (u := (x - xmin b) / (xmax b - xmin b)) in *.
  set (v := (y - ymin b) / (ymax b - ymin b)) in *.
  split; split; nra.
Qed.

(** X15.  On a valid box the mapping is monotone: a larger abscissa is never
    mapped to a smaller device x, and a larger ordinate is never mapped to a
    larger device y (device y grows opposite to data y). *)
Theorem xy_monotone (b : PlotBox) (x1 y1 x2 y2 : Q) :
  valid_box b ->
  exists p1 p2 : Point,
    xy b x1 y1 = inr p1 /\ xy b x2 y2 = inr p2
    /\ (x1 <= x2 -> fst p1 <= fst p2)
    /\ (y1 <= y2 -> snd p2 <= snd p1).
Proof.
  intros (Hx & Hy & Hw & Hh).
  exists (xy_val b x1 y1), (xy_val b x2 y2).
  split; [apply xy_ok; lra|]. split; [apply xy_ok; lra|].
  unfold xy_val. cbn [fst snd]. split.
  - intros Hle.
    pose proof (Qdiv_le_compat (x1 - xmin b) (x2 - xmin b) (xmax b - xmin b)
                  ltac:(lra) ltac:(lra)) as Hd.
    set (u := (x1 - xmin b) / (xmax b - xmin b)) in *.
    set (v := (x2 - xmin b) / (xmax b - xmin b)) in *. nra.
  - intros Hle.
    pose proof (Qdiv_le_compat (y1 - ymin b) (y2 - ymin b) (ymax b - ymin b)
                  ltac:(lra) ltac:(lra)) as Hd.
    set (u := (y1 - ymin b) / (ymax b - ymin b)) in *.
    set (v := (y2 - ymin b) / (ymax b - ymin b)) in *. nra.
Qed.

Lemma xy_inside_box_witness :
  (valid_box BOX /\ xmin BOX <= 3.2 <= xmax BOX /\ ymin BOX <= 0 <= ymax BOX)
  /\ exists p : Point,
       xy BOX 3.2 0 = inr p
       /\ x0 BOX <= fst p <= x0 BOX + w BOX
       /\ y0 BOX <= snd p <= y0 BOX + h BOX.
Proof.
  assert (Hv : valid_box BOX) by (repeat split).
  assert (Hx : xmin BOX <= 3.2 <= xmax BOX) by (split; discriminate).
  assert (Hy : ymin BOX <= 0 <= ymax BOX) by (split; discriminate).
  split; [split; [exact Hv | split; [exact Hx | exact Hy]]|].
  exact (xy_inside_box BOX 3.2 0 Hv Hx Hy).
Defined.

Lemma xy_monotone_witness :
  valid_box BOX
  /\ exists p1 p2 : Point,
       xy BOX 0 0 = inr p1 /\ xy BOX 1 1 = inr p2
       /\ fst p1 <= fst p2 /\ snd p2 <= snd p1.
Proof.
  assert (Hv : valid_box BOX) by (repeat split).
  split; [exact Hv|].
  destruct (xy_monotone BOX 0 0 1 1 Hv) as (p1 & p2 & H1 & H2 & Hx & Hy).
  exists p1, p2. split; [exact H1|]. split; [exact H2|].
  split; [apply Hx | apply Hy]; discriminate.
Defined.

(** ** Sampling a function or a curve *)

Lemma for_each_app {A S : Type} (xs ys : list A) (body : A -> S -> result S) (s : S) :
  for_each (xs ++ ys) body s = (s' <- for_each xs body s;; for_each ys body s').
Proof.
  revert s. induction xs as [|x xs IH]; intros s; cbn [app for_each bind].
  - reflexivity.
  - destruct (body x s) as [e|s']; cbn [bind]; [reflexivity | apply IH].
Qed.

Lemma seq_offset (a m : nat) : seq a m = map (fun k => (a + k)%nat) (seq 0 m).
Proof.
  revert a. induction m as [|m IH]; intros a; cbn [seq map]; [reflexivity|].
  f_equal; [lia|]. rewrite (IH (S a)), (IH 1%nat), map_map.
  apply map_ext. intros k. lia.
Qed.

Lemma range_split (n i : Z) :
  (0 <= i < n)%Z -> range n = (range i ++ i :: range2 (i + 1) n)%list.
Proof.
  intros Hi. unfold range, range2.
  replace (Z.to_nat (n - 0)) with (Z.to_nat (i - 0) + S (Z.to_nat (n - (i + 1))))%nat
    by lia.
  rewrite seq_app, map_app. f_equal. cbn [seq map]. f_equal; [lia|].
  rewrite (seq_offset (S _)), map_map. apply map_ext. intros k. lia.
Qed.

Lemma sample_x_first (b : PlotBox) (n : Z) : sample_x b n 0 == xmin b.
Proof. unfold sample_x. rewrite sample_t_first. ring. Qed.

(** X16.  [sample_func] with a function that returns on every sample, over a
    box with non-zero extents and with [n >= 2]: the result has [n] points,
    point [i] is the image of [(x, f(x))] at
    [x = xmin + (xmax - xmin) * t] for [t = i / (n - 1)]; [t] runs through
    [0, 1], it is 0 at the first sample, where the abscissa is [xmin], and 1
    at the last. *)
Theorem sample_func_samples (b : PlotBox) (f : Q -> result Q) (g : Q -> Q) (n : Z) :
  (forall x : Q, f x = inr (g x)) ->
  ~ xmax b == xmin b -> ~ ymax b == ymin b ->
  (2 <= n)%Z ->
  exists pts : list Point,
    sample_func b f n = inr pts
    /\ len pts = n
    /\ (forall i : nat, (Z.of_nat i < n)%Z ->
          let t := sample_t n (Z.of_nat i) in
          let x := xmin b + (xmax b - xmin b) * t in
          0 <= t <= 1
          /\ truediv (Z.of_nat i) (n - 1) = inr t
          /\ nth_error pts i = Some (xy_val b x (g x)))
    /\ sample_t n 0 == 0
    /\ sample_x b n 0 == xmin b
    /\ sample_t n (n - 1) == 1.
Proof.
  intros Hf Hx Hy Hn.
  exists (map (func_sample b g n) (range n)).
  split; [|split; [|split; [|split; [|split]]]].
  - unfold sample_func.
    rewrite (for_each_append (range n) _ (func_sample b g n)); [reflexivity|].
    intros i _ pts. rewrite truediv_ok by lia. cbn [bind].
    rewrite Hf. cbn [bind]. rewrite xy_ok by assumption. reflexivity.
  - unfold len. rewrite length_map, range_length. lia.
  - intros i Hi. cbn zeta.
    split; [apply sample_t_unit; lia|].
    split; [apply truediv_ok; lia|].
    rewrite range_to_nat by lia.
    rewrite nth_error_map, nth_error_map, nth_error_seq.
    replace (i <? Z.to_nat n)%nat with true by (symmetry; apply Nat.ltb_lt; lia).
    reflexivity.
  - apply sample_t_first.
  - apply sample_x_first.
  - now apply sample_t_last.
Qed.

(** X17.  The edge cases of [sample_func]: no sample gives the empty list; a
    single sample divides [0] by [0] and raises before [f] is called; and on a
    box of zero width or height a call with [n >= 2] never returns: it raises
    what [f] raises at the first abscissa or, if [f] returns there,
    [ZeroDivisionError]. *)
Theorem sample_func_edges (b : PlotBox) (f : Q -> result Q) (n : Z) :
  ((n <= 0)%Z -> sample_func b f n = inr [])
  /\ (n = 1%Z -> sample_func b f n = inl ZeroDivisionError)
  /\ ((2 <= n)%Z ->
      xmax b == xmin b \/ ymax b == ymin b ->
      sample_func b f n
      = match f (sample_x b n 0) with
        | inl e => inl e
        | inr _ => inl ZeroDivisionError
        end).
Proof.
  split; [|split].
  - intros Hn. unfold sample_func. now rewrite range_nonpos.
  - intros ->. reflexivity.
  - intros Hn Hz. unfold sample_func.
    destruct (range_cons n ltac:(lia)) as [tl ->]. cbn [for_each].
    rewrite truediv_ok by lia. cbn [bind].
    change (inject_Z 0 / inject_Z (n - 1)) with (sample_t n 0).
    fold (sample_x b n 0).
    destruct (f (sample_x b n 0)) as [e|y]; cbn [bind]; [reflexivity|].
    rewrite xy_raises by exact Hz. reflexivity.
Qed.

(** X18.  [sample_func] does not catch what [f] raises: if [f] returns on the
    samples before index [i] and raises [e] at sample [i], the call raises
    [e]. *)
Theorem sample_func_propagates (b : PlotBox) (f : Q -> result Q) (g : Q -> Q)
    (n i : Z) (e : exn) :
  ~ xmax b == xmin b -> ~ ymax b == ymin b ->
  (0 <= i < n)%Z -> (2 <= n)%Z ->
  (forall j : Z, (0 <= j < i)%Z -> f (sample_x b n j) = inr (g (sample_x b n j))) ->
  f (sample_x b n i) = inl e ->
  sample_func b f n = inl e.
Proof.
  intros Hx Hy Hi Hn Hbefore Hat. unfold sample_func.
  rewrite (range_split n i Hi), for_each_app.
  rewrite (for_each_append (range i) _ (func_sample b g n)).
  - cbn [bind for_each]. rewrite truediv_ok by lia. cbn [bind].
    change (inject_Z i / inject_Z (n - 1)) with (sample_t n i).
    fold (sample_x b n i). rewrite Hat. reflexivity.
  - intros j Hj pts. apply range2_In in Hj.
    rewrite truediv_ok by lia. cbn [bind].
    change (inject_Z j / inject_Z (n - 1)) with (sample_t n j).
    fold (sample_x b n j). rewrite Hbefore by lia. cbn [bind].
    rewrite xy_ok by assumption. reflexivity.
Qed.

(** X19.  [sample_parametric]: no sample gives the empty list, one sample raises
    [ZeroDivisionError]; with [n >= 2], a box with non-zero extents and a
    curve [g] that returns everywhere, the result has [n] points, point [i]
    being the image of [g(t)] at [t = i / (n - 1)], which runs from 0 to 1. *)
Theorem sample_parametric_samples (b : PlotBox) (g : Q -> result (Q * Q))
    (gx gy : Q -> Q) (n : Z) :
  ((n <= 0)%Z -> sample_parametric b g n = inr [])
  /\ (n = 1%Z -> sample_parametric b g n = inl ZeroDivisionError)
  /\ ((forall t : Q, g t = inr (gx t, gy t)) ->
      ~ xmax b == xmin b -> ~ ymax b == ymin b ->
      (2 <= n)%Z ->
      exists pts : list Point,
        sample_parametric b g n = inr pts
        /\ len pts = n
        /\ (forall i : nat, (Z.of_nat i < n)%Z ->
              0 <= sample_t n (Z.of_nat i) <= 1
              /\ nth_error pts i
                 = Some (xy_val b (gx (sample_t n (Z.of_nat i)))
                                  (gy (sample_t n (Z.of_nat i)))))
        /\ sample_t n 0 == 0 /\ sample_t n (n - 1) == 1).
Proof.
  split; [|split].
  - intros Hn. unfold sample_parametric. now rewrite range_nonpos.
  - intros ->. reflexivity.
  - intros Hg Hx Hy Hn.
    set (pt := fun i : Z => xy_val b (gx (sample_t n i)) (gy (sample_t n i))).
    exists (map pt (range n)).
    split; [|split; [|split; [|split]]].
    + unfold sample_parametric.
      rewrite (for_each_append (range n) _ pt); [reflexivity|].
      intros i _ pts. rewrite truediv_ok by lia. cbn [bind].
      rewrite Hg. cbn [bind]. rewrite xy_ok by assumption. reflexivity.
    + unfold len. rewrite length_map, range_length. lia.
    + intros i Hi. split; [apply sample_t_unit; lia|].
      rewrite range_to_nat by lia.
      rewrite nth_error_map, nth_error_map, nth_error_seq.
      replace (i <? Z.to_nat n)%nat with true by (symmetry; apply Nat.ltb_lt; lia).
      reflexivity.
    + apply sample_t_first.
    + now apply sample_t_last.
Qed.

Lemma sample_func_samples_witness :
  ((forall x : Q, parabola_f x = inr (parabola_g x))
   /\ ~ xmax BOX == xmin BOX /\ ~ ymax BOX == ymin BOX /\ (2 <= 110)%Z)
  /\ exists pts : list Point,
       sample_func BOX parabola_f 110 = inr pts /\ len pts = 110%Z.
Proof.
  assert (Hf : forall x : Q, parabola_f x = inr (parabola_g x)) by reflexivity.
  assert (Hn : (2 <= 110)%Z) by lia.
  split; [split; [exact Hf | split; [exact (proj1 BOX_extents) |
                               split; [exact (proj2 BOX_extents) | exact Hn]]]|].
  destruct (sample_func_samples BOX parabola_f parabola_g 110 Hf
              (proj1 BOX_extents) (proj2 BOX_extents) Hn) as (pts & Hrun & Hlen & _).
  exists pts. split; [exact Hrun | exact Hlen].
Defined.

Lemma sample_func_edges_witness :
  sample_func BOX parabola_f 0 = inr []
  /\ sample_func BOX parabola_f 1 = inl ZeroDivisionError
  /\ sample_func (mkPlotBox 0 0 10 10 1 1 0 1) parabola_f 2 = inl ZeroDivisionError
  /\ sample_func (mkPlotBox 0 0 10 10 1 1 0 1) (fun _ => raise IndexError) 2
     = inl IndexError.
Proof.
  split; [|split; [|split]].
  - apply (proj1 (sample_func_edges BOX parabola_f 0)). lia.
  - apply (proj1 (proj2 (sample_func_edges BOX parabola_f 1))). reflexivity.
  - apply (proj2 (proj2 (sample_func_edges (mkPlotBox 0 0 10 10 1 1 0 1)
                           parabola_f 2)) ltac:(lia)).
    left. reflexivity.
  - apply (proj2 (proj2 (sample_func_edges (mkPlotBox 0 0 10 10 1 1 0 1)
                           (fun _ => raise IndexError) 2)) ltac:(lia)).
    left. reflexivity.
Defined.

(** [lambda x: 1.0 / x] sampled at -1, 0 and 1 raises at the middle sample. *)
Lemma sample_func_propagates_witness :
  (~ xmax (mkPlotBox 0 0 10 10 (-1) 1 (-1) 1) == xmin (mkPlotBox 0 0 10 10 (-1) 1 (-1) 1)
   /\ (0 <= 1 < 3)%Z /\ (2 <= 3)%Z)
  /\ sample_func (mkPlotBox 0 0 10 10 (-1) 1 (-1) 1) (fun x => fdiv 1.0 x) 3
     = inl ZeroDivisionError.
Proof.
  set (b := mkPlotBox 0 0 10 10 (-1) 1 (-1) 1).
  assert (Hx : ~ xmax b == xmin b) by (intros H0; vm_compute in H0; discriminate H0).
  assert (Hy : ~ ymax b == ymin b) by (intros H0; vm_compute in H0; discriminate H0).
  assert (Hi : (0 <= 1 < 3)%Z) by lia.
  assert (Hn : (2 <= 3)%Z) by lia.
  split; [split; [exact Hx | split; [exact Hi | exact Hn]]|].
  apply (sample_func_propagates b (fun x => fdiv 1.0 x) (fun x => 1.0 / x) 3 1
           ZeroDivisionError Hx Hy Hi Hn).
  - intros j Hj. assert (j = 0%Z) as -> by lia. reflexivity.
  - reflexivity.
Defined.

Lemma sample_parametric_samples_witness :
  sample_parametric BOX (fun t => ret (t, t)) 1 = inl ZeroDivisionError
  /\ exists pts : list Point,
       sample_parametric BOX (fun t => ret (t, t)) 200 = inr pts
       /\ len pts = 200%Z.
Proof.
  pose proof (sample_parametric_samples BOX (fun t => ret (t, t))
                (fun t => t) (fun t => t)) as H.
  split.
  - apply (proj1 (proj2 (H 1%Z))). reflexivity.
  - destruct (proj2 (proj2 (H 200%Z)) ltac:(reflexivity)
                (proj1 BOX_extents) (proj2 BOX_extents) ltac:(lia))
      as (pts & Hrun & Hlen & _).
    exists pts. split; [exact Hrun | exact Hlen].
Defined.

(** ** Axes and projections *)

Section AxesAndProjections.

Context {P : Platform}.

(** X20.  On a box with non-zero extents [draw_axes] never raises and only adds to
    the drawing: two axis strokes, eight arrowhead strokes if arrows are
    asked for, and two ticks for each of the [ticks - 1] interior positions.
    On a box of zero width or height it raises [ZeroDivisionError]. *)
Theorem draw_axes_stroke_count (dwg : Drawing) (box : PlotBox)
    (axis_style : StrokeStyle) (seed ticks : Z) (arrows : bool) :
  (~ xmax box == xmin box -> ~ ymax box == ymin box ->
   exists added : list Path,
     draw_axes dwg box axis_style seed ticks arrows = inr (dwg ++ added)%list
     /\ len added
        = (2 + (if arrows then 8 else 0) + 2 * Z.max 0 (ticks - 1))%Z)
  /\ (xmax box == xmin box \/ ymax box == ymin box ->
      draw_axes dwg box axis_style seed ticks arrows = inl ZeroDivisionError).
Proof.
  split.
  - intros Hx Hy.
    set (origin := xy_val box (xmin box) (ymin box)).
    set (x_end := xy_val box (xmax box) (ymin box)).
    set (y_end := xy_val box (xmin box) (ymax box)).
    destruct (arrow_head_gesture_total x_end (1, 0) axis_style (seed + 3) 14 30.0)
      as (px & Lpx & Epx).
    destruct (arrow_head_gesture_total y_end (0, -1) axis_style (seed + 4) 14 30.0)
      as (py & Lpy & Epy).
    set (ax1 := stroke_path axis_style None None
                  (kernel_points origin x_end axis_style 90 (seed + 1) 0)).
    set (ax2 := stroke_path axis_style None None
                  (kernel_points origin y_end axis_style 90 (seed + 2) 0)).
    set (tx := map (tick_path origin x_end 20 axis_style (seed + 10))
                 (enumerate (tick_fractions ticks))).
    set (ty := map (tick_path origin y_end 20 axis_style (seed + 20))
                 (enumerate (tick_fractions ticks))).
    exists ([ax1; ax2] ++ (if arrows then px ++ py else [])
            ++ (if (ticks >? 0)%Z then tx ++ ty else []))%list.
    split.
    + unfold draw_axes. rewrite !xy_ok by assumption. cbn [bind].
      fold origin x_end y_end.
      rewrite stroke_line_eq by lia. cbn [bind].
      rewrite stroke_line_eq by lia. cbn [bind].
      fold ax1 ax2.
      assert (Hstep : forall d : Drawing,
                (if (ticks >? 0)%Z
                 then
                   ts <- comprehension (fun i => truediv i ticks) (range2 1 ticks);;
                   dwg1 <- ticks_on_axis d origin x_end ts 20 axis_style (seed + 10);;
                   ticks_on_axis dwg1 origin y_end ts 20 axis_style (seed + 20)
                 else ret d)
                = inr (d ++ (if (ticks >? 0)%Z then tx ++ ty else []))%list).
      { intros d. destruct (ticks >? 0)%Z eqn:Et;
          [|cbn [ret]; now rewrite app_nil_r].
        rewrite tick_fractions_eq by lia. cbn [bind].
        rewrite ticks_on_axis_eq. cbn [bind].
        rewrite ticks_on_axis_eq. subst tx ty. now rewrite <- app_assoc. }
      destruct arrows.
      * rewrite Epx. cbn [bind]. rewrite Epy. cbn [bind].
        rewrite Hstep. rewrite <- !app_assoc. reflexivity.
      * cbn [bind ret]. rewrite Hstep. rewrite <- !app_assoc. reflexivity.
    + assert (Ht : length (if (ticks >? 0)%Z then tx ++ ty else [])%list
                   = (2 * Z.to_nat (ticks - 1))%nat).
      { destruct (ticks >? 0)%Z eqn:Et.
        - subst tx ty. rewrite length_app, !length_map, !enumerate_length.
          unfold tick_fractions. rewrite length_map, range2_length. lia.
        - rewrite Z.gtb_ltb in Et. apply Z.ltb_ge in Et. cbn [length]. lia. }
      unfold len. rewrite !length_app, Ht. cbn [length].
      destruct arrows; rewrite ?length_app, ?Lpx, ?Lpy; cbn [length]; lia.
  - intros Hz. unfold draw_axes.
    destruct (Qeq_dec (xmax box) (xmin box)) as [Hx|Hx].
    + rewrite (xy_raises box (xmin box) (ymin box)) by (left; exact Hx). reflexivity.
    + destruct Hz as [Hz|Hz]; [contradiction|].
      rewrite (xy_raises box (xmin box) (ymin box)) by (right; exact Hz). reflexivity.
Qed.

(** X21.  On a box with non-zero extents [project_point_to_axes] never raises.  The
    foot of the vertical projection has the abscissa of the point and lies on
    the bottom edge of the device box; the foot of the horizontal one has its
    ordinate and lies on the left edge.  Four strokes are added, in this
    order: two dashed strokes of 50 points to the feet (seeds [seed + 1] and
    [seed + 2]), then the two strokes of 16 points of the cross, which are
    not dashed.  On a box of zero width or height the call raises
    [ZeroDivisionError]. *)
Theorem project_point_to_axes_strokes (dwg : Drawing) (box : PlotBox) (x y : Q)
    (dashed_style : StrokeStyle) (seed : Z) :
  (~ xmax box == xmin box -> ~ ymax box == ymin box ->
   exists (p px py : Point) (d1 d2 c1 c2 : Path),
     xy box x y = inr p
     /\ xy box x (ymin box) = inr px
     /\ xy box (xmin box) y = inr py
     /\ fst px = fst p /\ snd px == y0 box + h box
     /\ snd py = snd p /\ fst py == x0 box
     /\ project_point_to_axes dwg box x y dashed_style seed
        = inr (dwg ++ [d1; d2; c1; c2])%list
     /\ (forall d, stroke_line_dashed d p px dashed_style (seed + 1) 50 9 11
                   = inr (d1, (d ++ [d1])%list))
     /\ (forall d, stroke_line_dashed d p py dashed_style (seed + 2) 50 9 11
                   = inr (d2, (d ++ [d2])%list))
     /\ len (commands d1) = 50%Z /\ len (commands d2) = 50%Z
     /\ len (commands c1) = 16%Z /\ len (commands c2) = 16%Z
     /\ stroke_dasharray d1 <> None /\ stroke_dasharray d2 <> None
     /\ stroke_dasharray c1 = None /\ stroke_dasharray c2 = None)
  /\ (xmax box == xmin box \/ ymax box == ymin box ->
      project_point_to_axes dwg box x y dashed_style seed = inl ZeroDivisionError).
Proof.
  split.
  - intros Hx Hy.
    set (p := xy_val box x y).
    set (px := xy_val box x (ymin box)).
    set (py := xy_val box (xmin box) y).
    pose proof (fun d => stroke_line_dashed_eq d p px dashed_style (seed + 1) 50 9 11
                           ltac:(lia)) as E1.
    pose proof (fun d => stroke_line_dashed_eq d p py dashed_style (seed + 2) 50 9 11
                           ltac:(lia)) as E2.
    cbn zeta in E1, E2.
    exists p, px, py. eexists. eexists.
    exists (stroke_path dashed_style None None
              (kernel_points (fst p - 5.0, snd p) (fst p + 5.0, snd p)
                 dashed_style 16 (seed + 3) 0)),
           (stroke_path dashed_style None None
              (kernel_points (fst p, snd p - 5.0) (fst p, snd p + 5.0)
                 dashed_style 16 (seed + 4) 0)).
    split; [now apply xy_ok|]. split; [now apply xy_ok|]. split; [now apply xy_ok|].
    split; [reflexivity|].
    split; [subst px; unfold xy_val; cbn [fst snd]; field; lra|].
    split; [reflexivity|].
    split; [subst py; unfold xy_val; cbn [fst snd]; field; lra|].
    split.
    { unfold project_point_to_axes. rewrite !xy_ok by assumption. cbn [bind].
      fold p px py. rewrite E1. cbn [bind]. rewrite E2. cbn [bind].
      rewrite stroke_line_eq by lia. cbn [bind].
      rewrite stroke_line_eq by lia. cbn [bind ret].
      rewrite <- !app_assoc. reflexivity. }
    split; [exact E1|]. split; [exact E2|].
    cbn [stroke_path commands stroke_dasharray]. unfold len.
    rewrite !path_commands_length, !kernel_points_length.
    repeat split; try reflexivity; discriminate.
  - intros Hz. unfold project_point_to_axes.
    rewrite (xy_raises box x y) by exact Hz. reflexivity.
Qed.

End AxesAndProjections.

Lemma draw_axes_stroke_count_witness :
  (~ xmax BOX == xmin BOX /\ ~ ymax BOX == ymin BOX)
  /\ exists added : list Path,
       draw_axes (P := TestPlatform.platform) [] BOX axis_style 1 6 true
       = inr ([] ++ added)%list
       /\ len added = 20%Z.
Proof.
  split; [exact BOX_extents|].
  destruct (proj1 (draw_axes_stroke_count (P := TestPlatform.platform) [] BOX
                     axis_style 1 6 true)
              (proj1 BOX_extents) (proj2 BOX_extents)) as (added & Hrun & Hlen).
  exists added. split; [exact Hrun | exact Hlen].
Defined.

Lemma project_point_to_axes_strokes_witness :
  (~ xmax BOX == xmin BOX /\ ~ ymax BOX == ymin BOX)
  /\ exists d1 d2 c1 c2 : Path,
       project_point_to_axes (P := TestPlatform.platform) [] BOX 3.2 (-0.404)
         proj_style 900
       = inr ([] ++ [d1; d2; c1; c2])%list.
Proof.
  split; [exact BOX_extents|].
  destruct (proj1 (project_point_to_axes_strokes (P := TestPlatform.platform) [] BOX
                     3.2 (-0.404) proj_style 900)
              (proj1 BOX_extents) (proj2 BOX_extents))
    as (p & px & py & d1 & d2 & c1 & c2 & _ & _ & _ & _ & _ & _ & _ & Hrun & _).
  exists d1, d2, c1, c2. exact Hrun.
Defined.

(** ** Dashed strokes: sample counts; kinks; unfolding a polyline *)

Section MoreStrokes.

Context {P : Platform}.

Lemma stroke_line_dashed_one (dwg : Drawing) (p0 p1 : Point) (style : StrokeStyle)
    (seed : Z) (dash_base gap_base : Q) :
  stroke_line_dashed dwg p0 p1 style seed 1 dash_base gap_base
  = inl ZeroDivisionError.
Proof.
  unfold stroke_line_dashed.
  cbv beta iota zeta delta [uniform gen_seed gen_pos default_rng].
  now rewrite perturb_segment_one.
Qed.

Lemma stroke_line_dashed_none (dwg : Drawing) (p0 p1 : Point) (style : StrokeStyle)
    (seed n : Z) (dash_base gap_base : Q) :
  (n <= 0)%Z ->
  stroke_line_dashed dwg p0 p1 style seed n dash_base gap_base = inl IndexError.
Proof.
  intros Hn. unfold stroke_line_dashed.
  cbv beta iota zeta delta [uniform gen_seed gen_pos default_rng].
  now rewrite perturb_segment_none by exact Hn.
Qed.

(** X22.  [stroke_line_dashed] returns exactly when [n >= 2]: one sample raises
    [ZeroDivisionError], none raises [IndexError].  When it returns, the path
    has [n] commands and carries both dash attributes, and the drawing gains
    it at its end. *)
Theorem stroke_line_dashed_sample_count (dwg : Drawing) (p0 p1 : Point)
    (style : StrokeStyle) (seed n : Z) (dash_base gap_base : Q) :
  ((n <= 0)%Z ->
   stroke_line_dashed dwg p0 p1 style seed n dash_base gap_base = inl IndexError)
  /\ (n = 1%Z ->
      stroke_line_dashed dwg p0 p1 style seed n dash_base gap_base
      = inl ZeroDivisionError)
  /\ ((2 <= n)%Z <->
      exists path : Path,
        stroke_line_dashed dwg p0 p1 style seed n dash_base gap_base
        = inr (path, (dwg ++ [path])%list)
        /\ len (commands path) = n
        /\ stroke_dasharray path <> None
        /\ stroke_dashoffset path <> None).
Proof.
  split; [apply stroke_line_dashed_none|].
  split; [intros ->; apply stroke_line_dashed_one|].
  split.
  - intros Hn. eexists. split; [now apply stroke_line_dashed_eq|].
    cbn [stroke_path commands stroke_dasharray stroke_dashoffset].
    split; [|split; discriminate].
    unfold len. rewrite path_commands_length, kernel_points_length. lia.
  - intros (path & Hr & _).
    destruct (Z_le_gt_dec n 0) as [H0|H0];
      [rewrite stroke_line_dashed_none in Hr by exact H0; discriminate|].
    destruct (Z.eq_dec n 1) as [->|H1];
      [rewrite stroke_line_dashed_one in Hr; discriminate|].
    lia.
Qed.


(** X24.  The kink of a gestural arrowhead never raises.  It lies on the normal
    through the point at parameter [t] of the line from the wing base to the
    tip, with [0.70 <= t < 0.85], at an offset of at most [k] (for [k >= 0]),
    and it takes two draws from the generator. *)
Theorem kink_point_near_tip (p0 tip : Point) (k : Q) (rng : Generator) :
  0 <= k ->
  exists (n : Q * Q) (t kk : Q),
    _normal p0 tip = inr n
    /\ kink_point p0 tip k rng
       = inr (displaced p0 tip (fst n) (snd n) t kk,
              mkGenerator (gen_seed rng) (S (S (gen_pos rng))))
    /\ 0.70 <= t < 0.85
    /\ - k <= kk <= k.
Proof.
  intros Hk.
  exists (normal_val p0 tip),
         (fst (uniform (mkGenerator (gen_seed rng) (S (gen_pos rng))) 0.70 0.85)),
         (fst (uniform rng (- k) k)).
  split; [apply _normal_total|]. split; [|split].
  - unfold kink_point, normal_val. rewrite _unit_total. cbn [bind].
    destruct (unit_val _ _) as [ux uy]. reflexivity.
  - apply uniform_range_strict. reflexivity.
  - apply uniform_range. lra.
Qed.

Lemma polyline_path_shift (a : Point) (rest : list Point) (style : StrokeStyle)
    (seed n_per_seg i : Z) :
  (0 <= i)%Z ->
  polyline_path (a :: rest) style seed n_per_seg (i + 1)
  = polyline_path rest style (seed + 97) n_per_seg i.
Proof.
  intros Hi. unfold polyline_path.
  replace (Z.to_nat (i + 1 + 1)) with (S (Z.to_nat (i + 1))) by lia.
  replace (Z.to_nat (i + 1)) with (S (Z.to_nat i)) by lia.
  cbn [nth].
  replace (seed + (i + 1) * 97)%Z with (seed + 97 + i * 97)%Z by lia.
  replace (S (Z.to_nat i)) with (Z.to_nat (i + 1)) by lia.
  reflexivity.
Qed.

(** X25.  A polyline is its first segment, drawn by [stroke_line] with the base
    seed, followed by the polyline over the remaining points with the seed
    advanced by 97; this holds for every sample count, exceptions included. *)
Theorem polyline_unfold (dwg : Drawing) (a b : Point) (rest : list Point)
    (style : StrokeStyle) (seed n_per_seg : Z) :
  stroke_polyline dwg (a :: b :: rest) style seed n_per_seg
  = ('(_, dwg') <- stroke_line dwg a b style seed n_per_seg;;
     stroke_polyline dwg' (b :: rest) style (seed + 97) n_per_seg).
Proof.
  assert (Hlen : (2 <= len (a :: b :: rest))%Z) by (unfold len; cbn [length]; lia).
  destruct (Z_le_gt_dec n_per_seg 0) as [H0|H0].
  { rewrite (stroke_polyline_first_raises dwg (a :: b :: rest) style seed
               n_per_seg IndexError Hlen)
      by (intros; now apply stroke_line_none).
    now rewrite stroke_line_none by exact H0. }
  destruct (Z.eq_dec n_per_seg 1) as [->|H1].
  { rewrite (stroke_polyline_first_raises dwg (a :: b :: rest) style seed
               1 ZeroDivisionError Hlen)
      by (intros; apply stroke_line_one).
    now rewrite stroke_line_one. }
  assert (Hn : (2 <= n_per_seg)%Z) by lia.
  rewrite stroke_polyline_eq by assumption.
  rewrite stroke_line_eq by exact Hn. cbn [bind].
  replace (len (a :: b :: rest) - 1)%Z with (Z.of_nat (S (length rest)))
    by (unfold len; cbn [length]; lia).
  rewrite range_of_nat. cbn [seq map].
  rewrite <- seq_shift, !map_map.
  assert (Htail : map (fun k : nat =>
                         polyline_path (a :: b :: rest) style seed n_per_seg
                           (Z.of_nat (S k))) (seq 0 (length rest))
                  = map (polyline_path (b :: rest) style (seed + 97) n_per_seg)
                      (range (len (b :: rest) - 1))).
  { replace (len (b :: rest) - 1)%Z with (Z.of_nat (length rest))
      by (unfold len; cbn [length]; lia).
    rewrite range_of_nat, map_map. apply map_ext. intros k.
    replace (Z.of_nat (S k)) with (Z.of_nat k + 1)%Z by lia.
    apply polyline_path_shift. lia. }
  rewrite Htail.
  assert (Hfirst : polyline_path (a :: b :: rest) style seed n_per_seg (Z.of_nat 0)
                   = stroke_path style None None (kernel_points a b style n_per_seg seed 0)).
  { unfold polyline_path. cbn [Z.of_nat Z.to_nat Z.add nth Pos.to_nat Pos.iter_op Nat.add].
    replace (seed + 0 * 97)%Z with seed by lia. reflexivity. }
  rewrite Hfirst.
  destruct rest as [|c rest'].
  - unfold stroke_polyline at 1.
    replace (len [b] <? 2)%Z with true by reflexivity.
    cbn [len length Z.of_nat Z.sub range range2 map seq Z.to_nat Z.pos_sub].
    reflexivity.
  - rewrite stroke_polyline_eq; [|unfold len; cbn [length]; lia | exact Hn].
    rewrite <- app_assoc. reflexivity.
Qed.

End MoreStrokes.


Lemma kink_point_near_tip_witness :
  0 <= 2.0
  /\ exists (q : Point),
       kink_point (P := TestPlatform.platform) (0, 0) (10, 0) 2.0 (default_rng 3)
       = inr (q, mkGenerator 3 2).
Proof.
  assert (Hk : 0 <= 2.0) by discriminate.
  split; [exact Hk|].
  destruct (kink_point_near_tip (P := TestPlatform.platform) (0, 0) (10, 0) 2.0
              (default_rng 3) Hk) as (n & t & kk & _ & Hrun & _).
  eexists. exact Hrun.
Defined.
